(** * kobuki_driver: the serial driver core of the Kobuki base

    A shallow embedding of [src/kobuki_driver/src/driver/kobuki.cpp]:
    the checksum test of the packet finder, the frame dispatcher and the
    observer notification of [Kobuki::runnable], the odometry integrator
    [Kobuki::updateOdometry], the joint-state accessor, and the command
    encoder ([Kobuki::setCommand], [Kobuki::sendCommand], [Kobuki::stop]);
    then [Kobuki::init], [Kobuki::run], [Kobuki::getSensorData] and the
    generic encoder [Kobuki::sendCommand(data)].

    Data is modelled the way the C++ has it:
    - [unsigned char], [short], [unsigned short] and [int] values are [Z],
      with every conversion between them written out;
    - [double] values are the binary64 floats of [PrimFloat], so that a
      product, a quotient or a comparison is the IEEE-754 one the compiled
      code performs;
    - byte buffers are [list Z];
    - [std::set<unsigned char>] is a strictly ascending [list Z], because
      the code depends on the iteration order of the set;
    - writes to the serial port and emissions on the observer bus are
      collected, in order, in a list of [Effect]s returned next to the new
      driver state. *)

From Stdlib Require Import ZArith List Bool String Lia Sorted.
From Stdlib Require Import Floats.PrimFloat Floats.SpecFloat Floats.FloatOps
  Floats.FloatAxioms.
From Stdlib Require Import Numbers.Cyclic.Int63.Uint63.
Import ListNotations.

Set Warnings "-inexact-float".

Local Open Scope Z_scope.

(** ** C++ scalar conversions *)

(** [double]: an IEEE-754 binary64 value. *)
Definition double : Set := float.
Bind Scope float_scope with double.

(** Integral conversion to [short] (16 bits, two's complement): the value
    is reduced modulo 2^16 into [-32768, 32767]. *)
Definition to_short (z : Z) : Z :=
  let u := z mod 65536 in
  if u <? 32768 then u else u - 65536.

(** Integral conversion to [unsigned char]. *)
Definition to_uchar (z : Z) : Z := z mod 256.

(** [(double) n] for an integer [n]; exact for every 16-bit [n]. *)
Definition double_of_int (n : Z) : double :=
  if n <? 0 then (- of_uint63 (Uint63.of_Z (- n)))%float
  else of_uint63 (Uint63.of_Z n).

(** The integer part of a finite binary64 value, fraction discarded
    (truncation toward zero); [None] for an infinity or a NaN. *)
Definition truncate (x : double) : option Z :=
  match Prim2SF x with
  | S754_zero _ => Some 0
  | S754_finite s m e =>
      let sm := if s then Z.neg m else Z.pos m in
      Some (Z.quot (sm * 2 ^ Z.max e 0) (2 ^ Z.max (- e) 0))
  | S754_infinity _ | S754_nan => None
  end.

(** [(short) x] for a [double] [x]: a floating-integral conversion
    truncates, and C++ leaves the behaviour undefined when the truncated
    value is not representable in the destination type; that case is
    [None]. *)
Definition double_to_short (x : double) : option Z :=
  match truncate x with
  | Some n => if (-32768 <=? n) && (n <=? 32767) then Some n else None
  | None => None
  end.

(** [std::max(a, b)] is [(a < b) ? b : a]. *)
Definition std_max (a b : double) : double :=
  if (a <? b)%float then b else a.

(** [union_sint16]: a [short] overlaid with two bytes; on the
    little-endian hosts the driver is built for, [byte[0]] is the low
    byte of the word and [byte[1]] the high byte. *)
Definition union_sint16_byte0 (word : Z) : Z := Z.land (word mod 65536) 255.
Definition union_sint16_byte1 (word : Z) : Z := Z.shiftr (word mod 65536) 8.

(** Sequencing of computations whose behaviour may be undefined. *)
Definition bind {A B : Type} (m : option A) (f : A -> option B) : option B :=
  match m with
  | Some a => f a
  | None => None
  end.

Notation "x <- m ;; f" := (bind m (fun x => f))
  (at level 61, m at next level, right associativity).

(** ** PacketFinder *)

(** The [for] loop of [PacketFinder::checkSum]: [cs ^= buffer[i]] for
    every remaining byte, in an [unsigned char] accumulator. *)
Definition xor_bytes (cs : Z) (bytes : list Z) : Z :=
  fold_left (fun acc b => to_uchar (Z.lxor acc b)) bytes cs.

(** [PacketFinder::checkSum]: the XOR of [buffer[2]] .. [buffer[size-1]]
    (LEN, the payload and CKS; the two STX bytes are skipped) must be 0. *)
Definition checkSum (buffer : list Z) : bool :=
  let cs := xor_bytes 0 (skipn 2 buffer) in
  if cs =? 0 then true else false.

(** ** Header ids, record pool and observer signals *)

(** The header ids switched on by [Kobuki::runnable], in the order of the
    [case] labels. *)
Inductive Header : Set :=
  | header_default | header_ir | header_dock_ir | header_inertia
  | header_cliff | header_current | header_magnet | header_time
  | header_hw | header_fw | header_st_gyro | header_eeprom
  | header_gp_input.

Definition all_headers : list Header :=
  [ header_default; header_ir; header_dock_ir; header_inertia;
    header_cliff; header_current; header_magnet; header_time;
    header_hw; header_fw; header_st_gyro; header_eeprom;
    header_gp_input ].

(** The signals of the observer bus that [Kobuki::runnable] emits. *)
Inductive Signal : Set :=
  | sig_wheel_state | sig_sensor_data | sig_ir | sig_dock_ir
  | sig_inertia | sig_cliff | sig_current | sig_magnet | sig_hw
  | sig_fw | sig_time | sig_st_gyro | sig_eeprom | sig_gp_input.

(** What the driver does to the outside world. *)
Inductive Effect : Set :=
  | SerialWrite (bytes : list Z)
  | Emit (s : Signal).

(** The fields of [kobuki_default.data] that the driver itself reads. *)
Record SensorData : Set := mkSensorData {
  time_stamp : Z;
  left_encoder : Z;
  right_encoder : Z
}.

(** [ecl::Pose2D<double>] and the three pose rates. *)
Record Pose2D : Set := mkPose2D {
  pose_x : double;
  pose_y : double;
  pose_heading : double
}.

(** [device_comms::JointState]. *)
Record JointState : Set := mkJointState {
  name : string;
  position : double;
  velocity : double;
  enabled : bool
}.

(** ** The driver state *)

(** The members of [class Kobuki] used by the functions below, together
    with the function-local statics [init_l] and [init_r] of
    [updateOdometry], which persist from one call to the next.
    [kinematics] stands for [kinematics->forward], which belongs to the
    ecl library. [pool] holds the data bytes last stored for each header
    id. *)
Record Kobuki : Type := mkKobuki {
  protocol_version : string;
  is_connected : bool;
  is_running : bool;
  is_enabled : bool;
  data_buffer : list Z;
  sig_index : list Z;
  kobuki_default : SensorData;
  pool : Header -> list Z;
  last_timestamp : Z;
  last_velocity_left : double;
  last_velocity_right : double;
  last_diff_time : double;
  last_tick_left : Z;
  last_tick_right : Z;
  last_rad_left : double;
  last_rad_right : double;
  last_mm_left : double;
  last_mm_right : double;
  radius : Z;
  speed : Z;
  bias : double;
  wheel_radius : double;
  tick_to_mm : double;
  tick_to_rad : double;
  init_l : bool;
  init_r : bool;
  kinematics : double -> double -> Pose2D
}.

(** ** Command encoder *)

(** The two assignments [radius = r; speed = s]. *)
Definition set_radius_speed (r s : Z) (k : Kobuki) : Kobuki :=
  mkKobuki (protocol_version k) (is_connected k) (is_running k)
    (is_enabled k) (data_buffer k) (sig_index k) (kobuki_default k)
    (pool k) (last_timestamp k) (last_velocity_left k)
    (last_velocity_right k) (last_diff_time k) (last_tick_left k)
    (last_tick_right k) (last_rad_left k) (last_rad_right k)
    (last_mm_left k) (last_mm_right k) r s (bias k) (wheel_radius k)
    (tick_to_mm k) (tick_to_rad k) (init_l k) (init_r k) (kinematics k).

(** The assignment [is_enabled = b]. *)
Definition set_is_enabled (b : bool) (k : Kobuki) : Kobuki :=
  mkKobuki (protocol_version k) (is_connected k) (is_running k)
    b (data_buffer k) (sig_index k) (kobuki_default k)
    (pool k) (last_timestamp k) (last_velocity_left k)
    (last_velocity_right k) (last_diff_time k) (last_tick_left k)
    (last_tick_right k) (last_rad_left k) (last_rad_right k)
    (last_mm_left k) (last_mm_right k) (radius k) (speed k) (bias k)
    (wheel_radius k) (tick_to_mm k) (tick_to_rad k) (init_l k) (init_r k)
    (kinematics k).

(** The radius chosen by [Kobuki::setCommand]. *)
Definition command_radius (vx wz : double) : option Z :=
  if (wz =? 0)%float then Some 0
  else if (vx =? 0)%float && (0 <? wz)%float then Some 1
  else if (vx =? 0)%float && (wz <? 0)%float then Some (-1)
  else double_to_short (vx * 1000 / wz)%float.

(** The speed chosen by [Kobuki::setCommand]. *)
Definition command_speed (b vx wz : double) : option Z :=
  double_to_short
    (1000 * std_max (vx + b * wz / 2) (vx - b * wz / 2))%float.

(** [Kobuki::setCommand(vx, wz)]. *)
Definition setCommand (vx wz : double) (k : Kobuki) : option Kobuki :=
  r <- command_radius vx wz ;;
  s <- command_speed (bias k) vx wz ;;
  Some (set_radius_speed r s k).

(** The frame built by [Kobuki::sendCommand()]: the checksum loop runs
    over [cmd[2]] .. [cmd[6]]. *)
Definition command_frame (k : Kobuki) : list Z :=
  let cmd4 := union_sint16_byte0 (speed k) in
  let cmd5 := union_sint16_byte1 (speed k) in
  let cmd6 := union_sint16_byte0 (radius k) in
  let cmd7 := union_sint16_byte1 (radius k) in
  let cs := xor_bytes 0 [5; 1; cmd4; cmd5; cmd6] in
  [170; 85; 5; 1; cmd4; cmd5; cmd6; cmd7; cs].

(** [Kobuki::sendCommand()]: one write of the nine bytes. *)
Definition sendCommand (k : Kobuki) : list Effect :=
  [SerialWrite (command_frame k)].

(** [Kobuki::run()]. *)
Definition run (k : Kobuki) : Kobuki * bool :=
  (set_is_enabled true k, true).

(** [Kobuki::stop()]: the assignment to [is_running] is commented out in
    the source. *)
Definition stop (k : Kobuki) : option (Kobuki * list Effect * bool) :=
  k1 <- setCommand 0%float 0%float k ;;
  Some (set_is_enabled false k1, sendCommand k1, true).

(** ** Accessors *)

(** [Kobuki::getJointState(joint_state)]. *)
Definition getJointState (k : Kobuki) (joint_state : JointState) : JointState :=
  let en := is_connected k && is_running k && is_enabled k in
  if String.eqb (name joint_state) "wheel_left"
  then mkJointState (name joint_state) (last_rad_left k)
         (last_velocity_left k) en
  else mkJointState (name joint_state) (last_rad_right k)
         (last_velocity_right k) en.

(** ** Odometry *)

(** What [Kobuki::updateOdometry] hands back through its reference
    parameters. *)
Record Odometry : Set := mkOdometry {
  wheel_left_position : double;
  wheel_left_velocity : double;
  wheel_right_position : double;
  wheel_right_velocity : double;
  pose_update : Pose2D;
  pose_update_rates : Pose2D
}.

(** [(short)((curr - last) & 0xffff)]: both operands are [unsigned short]
    values promoted to [int]. *)
Definition diff_ticks (curr last : Z) : Z :=
  to_short (Z.land (curr - last) 65535).

(** The assignments of [updateOdometry] to the members of the driver. *)
Definition set_odometry (ts : Z) (vl vr dt : double) (tl tr : Z)
    (rl rr ml mr : double) (k : Kobuki) : Kobuki :=
  mkKobuki (protocol_version k) (is_connected k) (is_running k)
    (is_enabled k) (data_buffer k) (sig_index k) (kobuki_default k)
    (pool k) ts vl vr dt tl tr rl rr ml mr (radius k) (speed k) (bias k)
    (wheel_radius k) (tick_to_mm k) (tick_to_rad k) true true
    (kinematics k).

(** [Kobuki::updateOdometry]. *)
Definition updateOdometry (k : Kobuki) : Kobuki * Odometry :=
  let curr_timestamp := time_stamp (kobuki_default k) in
  let curr_tick_left := left_encoder (kobuki_default k) in
  let prev_tick_left :=
    if init_l k then last_tick_left k else curr_tick_left in
  let left_diff_ticks :=
    double_of_int (diff_ticks curr_tick_left prev_tick_left) in
  let rad_left := (last_rad_left k + tick_to_rad k * left_diff_ticks)%float in
  let mm_left :=
    (last_mm_left k + tick_to_mm k / 1000 * left_diff_ticks)%float in
  let curr_tick_right := right_encoder (kobuki_default k) in
  let prev_tick_right :=
    if init_r k then last_tick_right k else curr_tick_right in
  let right_diff_ticks :=
    double_of_int (diff_ticks curr_tick_right prev_tick_right) in
  let rad_right :=
    (last_rad_right k + tick_to_rad k * right_diff_ticks)%float in
  let mm_right :=
    (last_mm_right k + tick_to_mm k / 1000 * right_diff_ticks)%float in
  let pose :=
    kinematics k (tick_to_rad k * left_diff_ticks)%float
      (tick_to_rad k * right_diff_ticks)%float in
  let changed := negb (curr_timestamp =? last_timestamp k) in
  let diff_time :=
    if changed
    then (double_of_int (diff_ticks curr_timestamp (last_timestamp k))
          / 1000)%float
    else last_diff_time k in
  let velocity_left :=
    if changed then (tick_to_rad k * left_diff_ticks / diff_time)%float
    else last_velocity_left k in
  let velocity_right :=
    if changed then (tick_to_rad k * right_diff_ticks / diff_time)%float
    else last_velocity_right k in
  let k' :=
    set_odometry (if changed then curr_timestamp else last_timestamp k)
      velocity_left velocity_right diff_time curr_tick_left
      curr_tick_right rad_left rad_right mm_left mm_right k in
  (k',
   mkOdometry rad_left (if changed then velocity_left else 0%float)
     rad_right (if changed then velocity_right else 0%float) pose
     (mkPose2D (pose_x pose / diff_time)%float
        (pose_y pose / diff_time)%float
        (pose_heading pose / diff_time)%float)).

(** ** Frame dispatcher and observer notification *)

(** [std::set<unsigned char>::insert]: the set is kept in ascending order
    and holds no value twice. *)
Fixpoint set_insert (b : Z) (s : list Z) : list Z :=
  match s with
  | [] => [b]
  | x :: s' =>
      if b <? x then b :: s
      else if b =? x then s
      else x :: set_insert b s'
  end.

(** Modelled from the spec: the [deserialise] member of the record classes
    ([kobuki_default], [kobuki_ir], ...), whose headers are not part of
    the sources at hand. A decoder takes [HDR | SUBLEN | DATA] off the
    front of the buffer, [2 + SUBLEN] bytes in all; the result is the data
    bytes and the rest of the buffer. *)
Definition deserialise (buf : list Z) : list Z * list Z :=
  let sublen := Z.to_nat (nth 1 buf 0) in
  (firstn sublen (skipn 2 buf), skipn (2 + sublen) buf).

(** A little-endian [u16]. *)
Definition le16 (lo hi : Z) : Z := Z.lor lo (Z.shiftl hi 8).

(** Modelled from the spec: the schema of the [default] sub-record,
    [timestamp(u16) | bumper | wheel_drop | cliff | left_encoder(u16) |
    right_encoder(u16) | left_pwm | right_pwm | buttons | charger |
    battery | over_current], fifteen bytes; data of another length leaves
    the stored record as it was. *)
Definition decode_default (data : list Z) (old : SensorData) : SensorData :=
  if (List.length data =? 15)%nat
  then mkSensorData (le16 (nth 0 data 0) (nth 1 data 0))
         (le16 (nth 5 data 0) (nth 6 data 0))
         (le16 (nth 7 data 0) (nth 8 data 0))
  else old.

Definition Header_eqb (a b : Header) : bool :=
  match a, b with
  | header_default, header_default | header_ir, header_ir
  | header_dock_ir, header_dock_ir | header_inertia, header_inertia
  | header_cliff, header_cliff | header_current, header_current
  | header_magnet, header_magnet | header_time, header_time
  | header_hw, header_hw | header_fw, header_fw
  | header_st_gyro, header_st_gyro | header_eeprom, header_eeprom
  | header_gp_input, header_gp_input => true
  | _, _ => false
  end.

(** The assignments of the dispatcher to the members of the driver. *)
Definition set_decoder (buf idx : list Z) (def : SensorData)
    (pl : Header -> list Z) (k : Kobuki) : Kobuki :=
  mkKobuki (protocol_version k) (is_connected k) (is_running k)
    (is_enabled k) buf idx def pl (last_timestamp k)
    (last_velocity_left k) (last_velocity_right k) (last_diff_time k)
    (last_tick_left k) (last_tick_right k) (last_rad_left k)
    (last_rad_right k) (last_mm_left k) (last_mm_right k) (radius k)
    (speed k) (bias k) (wheel_radius k) (tick_to_mm k) (tick_to_rad k)
    (init_l k) (init_r k) (kinematics k).

(** The signals emitted for one header id by the second [switch] of
    [Kobuki::runnable]. *)
Definition signals_of (h : Header) : list Signal :=
  match h with
  | header_default => [sig_sensor_data; sig_wheel_state]
  | header_ir => [sig_ir]
  | header_dock_ir => [sig_dock_ir]
  | header_inertia => [sig_inertia]
  | header_cliff => [sig_cliff]
  | header_current => [sig_current]
  | header_magnet => [sig_magnet]
  | header_time => [sig_time]
  | header_hw => [sig_hw]
  | header_fw => [sig_fw]
  | header_st_gyro => [sig_st_gyro]
  | header_eeprom => [sig_eeprom]
  | header_gp_input => [sig_gp_input]
  end.

(** The observer signals among the effects, in order. *)
Definition emitted (es : list Effect) : list Signal :=
  flat_map (fun e => match e with Emit s => [s] | _ => [] end) es.

Section Dispatcher.

(** The constants [kobuki_comms::Header::header_*]; their values are
    declared outside the sources at hand. *)
Variable header_id : Header -> Z.

(** A [switch] over the thirteen [case] labels: the first label equal
    to the byte, if there is one. *)
Definition lookup_header (b : Z) : option Header :=
  find (fun h => b =? header_id h) all_headers.

(** One turn of the [while] loop for a recognised header: the id goes
    into [sig_index] and the decoder of the record stores the data. *)
Definition dispatch_record (h : Header) (k : Kobuki) : Kobuki :=
  let (data, rest) := deserialise (data_buffer k) in
  set_decoder rest
    (set_insert (nth 0 (data_buffer k) 0) (sig_index k))
    (match h with
     | header_default => decode_default data (kobuki_default k)
     | _ => kobuki_default k
     end)
    (fun h' => if Header_eqb h' h then data else pool k h')
    k.

(** [data_buffer.clear()]. *)
Definition clear_data_buffer (k : Kobuki) : Kobuki :=
  set_decoder [] (sig_index k) (kobuki_default k) (pool k) k.

(** The loop [while (data_buffer.size() > 1) switch (data_buffer[0])].
    The [default:] label clears the buffer, which ends the loop at its
    next test. [fuel] bounds the number of turns; [None] is a loop cut
    short by it. The driver does not record the [default:] case in any
    member: the [bool] of the result tells whether it was taken (it
    prints a line on the standard output). *)
Fixpoint dispatch_loop (fuel : nat) (k : Kobuki) : option (Kobuki * bool) :=
  if (1 <? List.length (data_buffer k))%nat then
    match fuel with
    | O => None
    | S fuel' =>
        match lookup_header (nth 0 (data_buffer k) 0) with
        | Some h => dispatch_loop fuel' (dispatch_record h k)
        | None => Some (clear_data_buffer k, true)
        end
    end
  else Some (k, false).

(** The second [switch]: one pass over [sig_index] in ascending order,
    emitting the signals of each id. *)
Definition notify_one (acc : Kobuki * list Effect) (id : Z)
  : Kobuki * list Effect :=
  match lookup_header id with
  | Some h => (fst acc, snd acc ++ map Emit (signals_of h))
  | None => (clear_data_buffer (fst acc), snd acc)
  end.

Definition notify (k : Kobuki) : Kobuki * list Effect :=
  fold_left notify_one (sig_index k) (k, []).

(** The body of the loop of [Kobuki::runnable] from the point where the
    packet finder has delivered a packet: the packet is copied into
    [data_buffer], its first three bytes (STX, STX, LEN) are popped,
    the sub-records are dispatched, the observers are notified and the
    motion command is sent. The result also tells whether the first
    [switch] met an unrecognised header. *)
Definition runnable_packet (packet : list Z) (k : Kobuki)
  : option (Kobuki * list Effect * bool) :=
  let k1 :=
    set_decoder (skipn 3 packet) (sig_index k) (kobuki_default k)
      (pool k) k in
  if String.eqb (protocol_version k) "2.0" then
    let k2 :=
      set_decoder (data_buffer k1) [] (kobuki_default k1) (pool k1) k1 in
    r <- dispatch_loop (List.length (data_buffer k2)) k2 ;;
    let (k3, es) := notify (fst r) in
    Some (k3, es ++ sendCommand k3, snd r)
  else Some (k1, sendCommand k1, false).

End Dispatcher.

(** Modelled from the spec: the values of the header ids; [default] is
    0x01 and [dock_ir] is 0x03, the ids being numbered in the order in
    which the spec lists them. *)
Definition spec_header_id (h : Header) : Z :=
  match h with
  | header_default => 1
  | header_ir => 2
  | header_dock_ir => 3
  | header_inertia => 4
  | header_cliff => 5
  | header_current => 6
  | header_magnet => 7
  | header_time => 8
  | header_hw => 9
  | header_fw => 10
  | header_st_gyro => 11
  | header_eeprom => 12
  | header_gp_input => 13
  end.

(** ** Notions of the specification *)

(** A value of [0, 2^16) read as a signed 16-bit integer. *)
Definition as_signed16 (u : Z) : Z :=
  if u <? 2 ^ 15 then u else u - 2 ^ 16.

(** The wrap-safe difference of the specification: the difference reduced
    modulo 2^16 and read as a signed 16-bit integer. *)
Definition signed_wrap16 (d : Z) : Z := as_signed16 (d mod 2 ^ 16).

(** Rounding of a finite binary64 value to the nearest integer, halves
    away from zero; [None] for an infinity or a NaN. *)
Definition spec_round (x : double) : option Z :=
  match Prim2SF x with
  | S754_zero _ => Some 0
  | S754_finite s m e =>
      let d := 2 ^ Z.max (- e) 0 in
      let r := (2 * (Z.pos m * 2 ^ Z.max e 0) + d) / (2 * d) in
      Some (if s then - r else r)
  | S754_infinity _ | S754_nan => None
  end.

(** A sub-record on the wire: [HDR | SUBLEN | DATA]. *)
Definition sub_record (hdr : Z) (data : list Z) : list Z :=
  hdr :: Z.of_nat (List.length data) :: data.

Section Payloads.

Variable header_id : Header -> Z.

(** The bytes of a sequence of sub-records of recognised headers. *)
Definition records_bytes (rs : list (Header * list Z)) : list Z :=
  flat_map (fun r => sub_record (header_id (fst r)) (snd r)) rs.

(** The ids of a sequence of sub-records, as a set. *)
Definition seen_ids (rs : list (Header * list Z)) : list Z :=
  fold_left (fun s r => set_insert (header_id (fst r)) s) rs [].

(** The signals that belong to the ids of a set, in the order of the
    set. *)
Definition signals_of_ids (ids : list Z) : list Signal :=
  flat_map
    (fun id =>
       match lookup_header header_id id with
       | Some h => signals_of h
       | None => []
       end)
    ids.

(** What [sig_index] is between two packets: ids of recognised headers,
    in ascending order. *)
Definition index_ok (s : list Z) : Prop :=
  StronglySorted Z.lt s /\ Forall (fun b => exists h, b = header_id h) s.

End Payloads.

(** ** A concrete driver *)

(** The driver as [Kobuki::init] leaves it for protocol "2.0" on a real
    serial port: ticks, angles and the command are zero, [bias] is 0.298,
    [wheel_radius] is 0.042, and the driver is connected and running. The
    members that [init] does not assign (they are set by the constructor,
    in a header) are given the values written here. *)
Definition sample_driver : Kobuki :=
  mkKobuki "2.0" true true false [] [] (mkSensorData 0 0 0)
    (fun _ => []) 0 0%float 0%float 0%float 0 0 0%float 0%float 0%float
    0%float 0 0 0.298%float 0.042%float 0.0845813406577%float
    0.00201384744522%float false false
    (fun _ _ => mkPose2D 0%float 0%float 0%float).

(** The same driver after some samples: the left encoder last read 65530
    and now reads 5, the right one went from 100 to 90, and the device
    clock went from 65000 to 12. *)
Definition wrapped_driver : Kobuki :=
  mkKobuki "2.0" true true true [] [] (mkSensorData 12 5 90)
    (fun _ => []) 65000 0%float 0%float 0.02%float 65530 100 1%float
    2%float 0%float 0%float 0 0 0.298%float 0.042%float
    0.0845813406577%float 0.00201384744522%float true true
    (fun _ _ => mkPose2D 0%float 0%float 0%float).

(** The same driver when the device clock has not moved since the last
    update. *)
Definition stalled_driver : Kobuki :=
  mkKobuki "2.0" true true true [] [] (mkSensorData 65000 5 90)
    (fun _ => []) 65000 3%float 4%float 0.02%float 65530 100 1%float
    2%float 0%float 0%float 0 0 0.298%float 0.042%float
    0.0845813406577%float 0.00201384744522%float true true
    (fun _ _ => mkPose2D 0%float 0%float 0%float).

(** A packet [STX STX LEN | payload | CKS] whose payload is a [default]
    sub-record of fifteen data bytes followed by a sub-record of the
    unknown header id 0xEE. *)
Definition packet_with_unknown_header : list Z :=
  [170; 85; 19; 1; 15; 1; 2; 3; 4; 5; 6; 7; 8; 9; 10; 11; 12; 13; 14; 15;
   238; 0; 243].

(** A packet whose payload is a [dock_ir] sub-record followed by a
    [default] sub-record. *)
Definition packet_two_records : list Z :=
  [170; 85; 20; 3; 1; 9; 1; 15; 1; 2; 3; 4; 5; 6; 7; 8; 9; 10; 11; 12; 13;
   14; 15; 17].

(** ** The rest of the driver *)

(** The writes to the serial port among the effects, in order. *)
Definition serial_writes (es : list Effect) : list (list Z) :=
  flat_map (fun e => match e with SerialWrite b => [b] | _ => [] end) es.

(** A [double] that is neither an infinity nor a NaN. *)
Definition finite_double (x : double) : bool :=
  match Prim2SF x with
  | S754_zero _ | S754_finite _ _ _ => true
  | S754_infinity _ | S754_nan => false
  end.

(** [Kobuki::getSensorData(sensor_data)]: the caller's record is assigned
    only under protocol "2.0". *)
Definition getSensorData (k : Kobuki) (sensor_data : SensorData)
  : SensorData :=
  if String.eqb (protocol_version k) "2.0" then kobuki_default k
  else sensor_data.

(** The fields of [Parameters] read by [Kobuki::init]. *)
Module Parameters.
Record t : Set := mk {
  device_port : string;
  protocol_version : string;
  simulation : bool;
  sigslots_namespace : string
}.
End Parameters.

(** What [Kobuki::init] comes to: it returns, or it throws an
    [ecl::StandardException] carrying [ecl::ConfigurationError]. *)
Inductive InitResult : Type :=
  | Initialised (k : Kobuki)
  | ConfigurationError.

Section Init.

(** [Parameters::validate] and the constructor of
    [ecl::DifferentialDrive::Kinematics] (which gives the [forward]
    function for a wheelbase and a wheel radius) are declared outside the
    sources at hand. *)
Variable validate : Parameters.t -> bool.
Variable Kinematics : double -> double -> double -> double -> Pose2D.

(** [Kobuki::init(parameters)], as far as the members of the driver go.
    Opening the serial port, configuring the packet finder, connecting
    the signals and starting the worker thread act on other objects.
    [is_connected] is assigned only outside simulation; the members left
    alone ([is_enabled], the timestamp and velocities, the tick
    constants, the statics [init_l] and [init_r]) keep their values. The
    members [simulation], [v] and [w], which none of the functions
    embedded here reads, are not carried in the state. *)
Definition init (parameters : Parameters.t) (k : Kobuki) : InitResult :=
  if negb (validate parameters) then ConfigurationError
  else
    Initialised
      (mkKobuki (Parameters.protocol_version parameters)
         (if Parameters.simulation parameters then is_connected k else true)
         true (is_enabled k) (data_buffer k) (sig_index k)
         (kobuki_default k) (pool k) (last_timestamp k)
         (last_velocity_left k) (last_velocity_right k) (last_diff_time k)
         0 0 0 0 0 0 0 0 0.298 0.042 (tick_to_mm k) (tick_to_rad k)
         (init_l k) (init_r k) (Kinematics 0.298 0.042)).

End Init.

(** The fields of [kobuki_comms::Command] read by
    [Kobuki::sendCommand(data)]. *)
Module Command.
Record t : Set := mk {
  command : Z;
  speed : Z;
  radius : Z
}.
End Command.

(** The driver together with the two members that only
    [sendCommand(data)] uses. *)
Record Commander : Type := mkCommander {
  driver : Kobuki;
  kobuki_command : Command.t;
  command_buffer : list Z
}.

(** [command_buffer[2] = v]; indexing past the end is undefined. *)
Definition store_at_2 (v : Z) (buf : list Z) : option (list Z) :=
  match buf with
  | b0 :: b1 :: _ :: rest => Some (b0 :: b1 :: v :: rest)
  | _ => None
  end.

Section SendCommandData.

(** Declared outside the sources at hand: what the buffer holds after
    [clear()] and [resize(64)] (that depends on the class of
    [command_buffer]), what [kobuki_command.serialise] makes of the buffer
    it is given, and the constant [Command::commandBaseControl]. *)
Variable resized : list Z.
Variable serialise : Command.t -> list Z -> list Z.
Variable commandBaseControl : Z.

(** [Kobuki::sendCommand(data)]. A failing [serialise] only logs an
    error; the frame is completed and written all the same. *)
Definition sendCommand_data (data : Command.t) (c : Commander)
  : option (Commander * list Effect) :=
  let buf0 := resized ++ [170; 85; 0] in
  let buf1 := serialise data buf0 in
  buf2 <- store_at_2 (to_uchar (Z.of_nat (List.length buf1) - 3)) buf1 ;;
  let checksum := xor_bytes 0 (skipn 2 buf2) in
  let buf3 := buf2 ++ [checksum] in
  let k' :=
    if Command.command data =? commandBaseControl
    then set_radius_speed (Command.radius data) (Command.speed data)
           (driver c)
    else driver c in
  Some (mkCommander k' data buf3, [SerialWrite buf3]).

End SendCommandData.

(** A driver before [Kobuki::init]: the members hold arbitrary values,
    the statics of [updateOdometry] are still false. *)
Definition fresh_driver : Kobuki :=
  mkKobuki "" false false false [] [] (mkSensorData 0 0 0) (fun _ => [])
    0 0 0 0 7 7 1 1 1 1 3 3 0 0 0.0845813406577 0.00201384744522 false
    false (fun _ _ => mkPose2D 0 0 0).

(** Parameters of a run on a real port. *)
Definition sample_parameters : Parameters.t :=
  Parameters.mk "/dev/ttyUSB0" "2.0" false "/kobuki".

(** A base-control command asking for 100 mm/s on a radius of 300 mm,
    and the six bytes a serialiser may append for it. *)
Definition sample_command : Command.t := Command.mk 1 100 300.

Definition sample_serialise (data : Command.t) (buf : list Z) : list Z :=
  buf ++ [Command.command data; 4;
          union_sint16_byte0 (Command.speed data);
          union_sint16_byte1 (Command.speed data);
          union_sint16_byte0 (Command.radius data);
          union_sint16_byte1 (Command.radius data)].

(** The header whose notification emits a given signal. *)
Definition signal_header (s : Signal) : Header :=
  match s with
  | sig_wheel_state | sig_sensor_data => header_default
  | sig_ir => header_ir
  | sig_dock_ir => header_dock_ir
  | sig_inertia => header_inertia
  | sig_cliff => header_cliff
  | sig_current => header_current
  | sig_magnet => header_magnet
  | sig_hw => header_hw
  | sig_fw => header_fw
  | sig_time => header_time
  | sig_st_gyro => header_st_gyro
  | sig_eeprom => header_eeprom
  | sig_gp_input => header_gp_input
  end.

(** A driver configured for another protocol version, with ids left in
    [sig_index] by earlier packets. *)
Definition legacy_driver : Kobuki :=
  mkKobuki "1.0" true true true [] [1; 3] (mkSensorData 12 5 90)
    (fun _ => []) 0 0 0 0 0 0 0 0 0 0 300 100 0.298 0.042
    0.0845813406577 0.00201384744522 false false
    (fun _ _ => mkPose2D 0 0 0).

(** [wrapped_driver] after a second [Kobuki::init] with
    [sample_parameters]: the ticks, the angles and the command are zero
    again, the statics of [updateOdometry] are still set. *)
Definition reinitialised_driver : Kobuki :=
  mkKobuki "2.0" true true true [] [] (mkSensorData 12 5 90)
    (fun _ => []) 65000 0 0 0.02 0 0 0 0 0 0 0 0 0.298 0.042
    0.0845813406577 0.00201384744522 true true
    (fun _ _ => mkPose2D 0 0 0).

(** [n] is the [double] [x] with its fraction discarded: [x] is finite,
    [n] has the sign of [x] (or is 0), and |n| <= |x| < |n| + 1, the
    exact value of [x] being [m * 2^e] up to its sign. *)
Definition is_truncation_of (x : double) (n : Z) : Prop :=
  match Prim2SF x with
  | S754_zero _ => n = 0
  | S754_finite s m e =>
      Z.abs n * 2 ^ Z.max (- e) 0 <= Z.pos m * 2 ^ Z.max e 0
        < (Z.abs n + 1) * 2 ^ Z.max (- e) 0 /\
      (if s then n <= 0 else 0 <= n)
  | S754_infinity _ | S754_nan => False
  end.

(** The observer channel of a header id, as the specification lists
    them: [/sensor_data] for [default], [/ir], [/dock_ir], ... *)
Definition observer_signal (h : Header) : Signal :=
  match h with
  | header_default => sig_sensor_data
  | header_ir => sig_ir
  | header_dock_ir => sig_dock_ir
  | header_inertia => sig_inertia
  | header_cliff => sig_cliff
  | header_current => sig_current
  | header_magnet => sig_magnet
  | header_time => sig_time
  | header_hw => sig_hw
  | header_fw => sig_fw
  | header_st_gyro => sig_st_gyro
  | header_eeprom => sig_eeprom
  | header_gp_input => sig_gp_input
  end.

(** What the specification asks to be emitted for one seen id: its
    observer signal and, after [default], the joint-state signal. *)
Definition spec_emission (h : Header) : list Signal :=
  match h with
  | header_default => [observer_signal h; sig_wheel_state]
  | _ => [observer_signal h]
  end.

(** * Properties *)

(** ** Bytes and checksums *)

Lemma to_uchar_range (z : Z) : 0 <= to_uchar z < 256.
Proof. unfold to_uchar. apply Z.mod_pos_bound. lia. Qed.

Lemma to_uchar_small (z : Z) : 0 <= z < 256 -> to_uchar z = z.
Proof. intros Hz. unfold to_uchar. apply Z.mod_small. exact Hz. Qed.

Lemma to_uchar_land (z : Z) : to_uchar z = Z.land z (Z.ones 8).
Proof. unfold to_uchar. rewrite Z.land_ones by lia. reflexivity. Qed.

Lemma land_lxor_distr (a b c : Z) :
  Z.land (Z.lxor a b) c = Z.lxor (Z.land a c) (Z.land b c).
Proof.
  apply Z.bits_inj'. intros n _.
  rewrite Z.land_spec, !Z.lxor_spec, !Z.land_spec.
  destruct (Z.testbit a n), (Z.testbit b n), (Z.testbit c n); reflexivity.
Qed.

Lemma to_uchar_lxor (a b : Z) :
  0 <= a < 256 -> 0 <= b < 256 -> to_uchar (Z.lxor a b) = Z.lxor a b.
Proof.
  intros Ha Hb.
  rewrite to_uchar_land, land_lxor_distr, <- !to_uchar_land.
  rewrite !to_uchar_small by assumption. reflexivity.
Qed.

Lemma xor_bytes_app (cs : Z) (l1 l2 : list Z) :
  xor_bytes cs (l1 ++ l2) = xor_bytes (xor_bytes cs l1) l2.
Proof. unfold xor_bytes. apply fold_left_app. Qed.

Lemma xor_bytes_range (cs : Z) (l : list Z) :
  0 <= cs < 256 -> 0 <= xor_bytes cs l < 256.
Proof.
  revert cs. induction l as [|b l IH]; intros cs Hcs; simpl.
  - exact Hcs.
  - apply IH, to_uchar_range.
Qed.

Lemma union_sint16_byte0_range (w : Z) : 0 <= union_sint16_byte0 w < 256.
Proof.
  unfold union_sint16_byte0.
  change 255 with (Z.ones 8). rewrite Z.land_ones by lia.
  apply Z.mod_pos_bound. lia.
Qed.

Lemma union_sint16_byte1_range (w : Z) : 0 <= union_sint16_byte1 w < 256.
Proof.
  unfold union_sint16_byte1.
  rewrite Z.shiftr_div_pow2 by lia.
  assert (H : 0 <= w mod 65536 < 65536) by (apply Z.mod_pos_bound; lia).
  change (2 ^ 8) with 256. split.
  - apply Z.div_pos; lia.
  - apply Z.div_lt_upper_bound; lia.
Qed.

(** The two bytes of the union are the little-endian encoding of the
    16-bit word. *)
Lemma union_sint16_little_endian (w : Z) :
  union_sint16_byte0 w + 256 * union_sint16_byte1 w = w mod 65536.
Proof.
  unfold union_sint16_byte0, union_sint16_byte1.
  change 255 with (Z.ones 8). rewrite Z.land_ones by lia.
  rewrite Z.shiftr_div_pow2 by lia. change (2 ^ 8) with 256.
  pose proof (Z.div_mod (w mod 65536) 256). lia.
Qed.

(** The frame of [sendCommand()] passes the checksum test of the packet
    finder exactly when the high byte of the radius is zero: the loop of
    [sendCommand()] leaves [cmd[7]] out of the checksum. *)
Lemma command_frame_checkSum (k : Kobuki) :
  checkSum (command_frame k) = (union_sint16_byte1 (radius k) =? 0).
Proof.
  unfold checkSum, command_frame. cbn [skipn].
  set (s0 := union_sint16_byte0 (speed k)).
  set (s1 := union_sint16_byte1 (speed k)).
  set (r0 := union_sint16_byte0 (radius k)).
  set (r1 := union_sint16_byte1 (radius k)).
  set (cs := xor_bytes 0 [5; 1; s0; s1; r0]).
  change [5; 1; s0; s1; r0; r1; cs] with ([5; 1; s0; s1; r0] ++ [r1; cs]).
  rewrite xor_bytes_app. fold cs.
  assert (Hcs : 0 <= cs < 256) by (apply xor_bytes_range; lia).
  assert (Hr1 : 0 <= r1 < 256) by apply union_sint16_byte1_range.
  unfold xor_bytes. cbn [fold_left].
  rewrite (to_uchar_lxor cs r1) by assumption.
  rewrite to_uchar_land, land_lxor_distr, <- !to_uchar_land.
  rewrite (to_uchar_small cs) by assumption.
  rewrite to_uchar_lxor by assumption.
  rewrite (Z.lxor_comm cs r1), Z.lxor_assoc, Z.lxor_nilpotent, Z.lxor_0_r.
  destruct (r1 =? 0); reflexivity.
Qed.

(** ** Comparisons of a [double] with zero *)

Lemma Prim2SF_zero : Prim2SF 0%float = S754_zero false.
Proof. reflexivity. Qed.

(** [wz > 0] and [wz < 0] exclude each other. *)
Lemma ltb_zero_exclusive (w : double) :
  (0 <? w)%float = true -> (w <? 0)%float = false.
Proof.
  rewrite !FloatAxioms.ltb_spec, Prim2SF_zero. unfold SFltb.
  destruct (Prim2SF w) as [s | s | | s m e]; simpl; try discriminate;
    destruct s; simpl; intros H; try discriminate; reflexivity.
Qed.

(** [wz > 0] and [wz < 0] both exclude [wz == 0]. *)
Lemma ltb_zero_neq (w : double) :
  (0 <? w)%float = true \/ (w <? 0)%float = true -> (w =? 0)%float = false.
Proof.
  rewrite !FloatAxioms.ltb_spec, FloatAxioms.eqb_spec, Prim2SF_zero. unfold SFltb, SFeqb.
  destruct (Prim2SF w) as [s | s | | s m e]; simpl;
    try (intros [H | H]; discriminate);
    destruct s; simpl; intros [H | H]; try discriminate; reflexivity.
Qed.

(** ** The command encoder *)

Lemma setCommand_inv (vx wz : double) (k k' : Kobuki) :
  setCommand vx wz k = Some k' ->
  exists r s,
    command_radius vx wz = Some r /\ command_speed (bias k) vx wz = Some s /\
    k' = set_radius_speed r s k.
Proof.
  unfold setCommand, bind.
  destruct (command_radius vx wz) as [r|]; [|discriminate].
  destruct (command_speed (bias k) vx wz) as [s|]; [|discriminate].
  intros H. inversion H. exists r, s. auto.
Qed.

Lemma double_to_short_inv (x : double) (n : Z) :
  double_to_short x = Some n ->
  truncate x = Some n /\ -32768 <= n <= 32767.
Proof.
  unfold double_to_short. destruct (truncate x) as [m|]; [|discriminate].
  destruct (-32768 <=? m) eqn:Hlo; destruct (m <=? 32767) eqn:Hhi;
    simpl; try discriminate.
  intros H. inversion H. subst. split; [reflexivity | lia].
Qed.

Lemma spin_radius : command_radius 0 0.5 = Some 1.
Proof. reflexivity. Qed.

Lemma spin_speed : command_speed 0.298 0 0.5 = Some 74.
Proof. reflexivity. Qed.

Lemma halt_radius : command_radius 0 0 = Some 0.
Proof. reflexivity. Qed.

Lemma halt_speed : command_speed 0.298 0 0 = Some 0.
Proof. reflexivity. Qed.

(** The shape of the frame of [sendCommand()], for every stored speed and
    radius: the fixed header, the two little-endian words, and the XOR of
    [cmd[2]] .. [cmd[6]]. *)
Lemma command_frame_shape (k : Kobuki) :
  exists s0 s1 r0 r1,
    command_frame k =
      [170; 85; 5; 1; s0; s1; r0; r1; xor_bytes 0 [5; 1; s0; s1; r0]] /\
    s0 + 256 * s1 = speed k mod 65536 /\
    r0 + 256 * r1 = radius k mod 65536 /\
    0 <= s0 < 256 /\ 0 <= s1 < 256 /\ 0 <= r0 < 256 /\ 0 <= r1 < 256.
Proof.
  exists (union_sint16_byte0 (speed k)), (union_sint16_byte1 (speed k)),
    (union_sint16_byte0 (radius k)), (union_sint16_byte1 (radius k)).
  repeat split;
    try apply union_sint16_little_endian;
    try apply union_sint16_byte0_range;
    try apply union_sint16_byte1_range.
Qed.

(** C1, at the command left by [setCommand(0.0, -0.5)] (speed 74,
    radius -1): [sendCommand()] writes AA 55 05 01 4A 00 FF FF B1. Byte 8
    is 0xB1, the XOR of bytes 2 to 6, whereas the XOR of bytes 2 to 7
    inclusive is 0x4E: the checksum loop stops one byte early. *)
Theorem sendCommand_checksum_omits_byte7 :
  option_map sendCommand (setCommand 0 (-0.5) sample_driver) =
    Some [SerialWrite [170; 85; 5; 1; 74; 0; 255; 255; 177]] /\
  xor_bytes 0 [5; 1; 74; 0; 255] = 177 /\
  xor_bytes 0 [5; 1; 74; 0; 255; 255] = 78.
Proof. repeat split. Qed.

(** C9, at the command left by [setCommand(0.0, -0.5)]: the nine bytes
    written by [sendCommand()] fail the checksum test of the packet
    finder, the XOR of the bytes from LEN to CKS being 0xFF and not 0. *)
Theorem sendCommand_frame_fails_checkSum :
  option_map (fun k => checkSum (command_frame k))
    (setCommand 0 (-0.5) sample_driver) = Some false /\
  option_map (fun k => xor_bytes 0 (skipn 2 (command_frame k)))
    (setCommand 0 (-0.5) sample_driver) = Some 255.
Proof. split; reflexivity. Qed.

(** C2 as the claim states it fails at [setCommand(0.0, 0.5)] on the
    initialised driver: the stored speed is 74, and bytes 4-5 of the frame
    are 4A 00, while rounding the same product 1000 * 0.0745 gives the
    75 of the claim. *)
Lemma spin_speed_is_74_not_75 :
  option_map speed (setCommand 0 0.5 sample_driver) = Some 74 /\
  option_map (fun k => firstn 2 (skipn 4 (command_frame k)))
    (setCommand 0 0.5 sample_driver) = Some [74; 0] /\
  spec_round
    (1000 * std_max (0 + 0.298 * 0.5 / 2) (0 - 0.298 * 0.5 / 2)) = Some 75.
Proof. repeat split. Qed.

(** The quotient of a division of non-negative integers, by its bounds. *)
Lemma quot_bounds (a d q : Z) :
  0 <= a -> 0 < d -> (q = a / d <-> (0 <= q /\ q * d <= a < (q + 1) * d)).
Proof.
  intros Ha Hd. split.
  - intros ->. pose proof (Z.div_mod a d ltac:(lia)) as H.
    pose proof (Z.mod_pos_bound a d Hd) as Hm.
    split; [apply Z.div_pos; lia | nia].
  - intros [Hq Hb]. apply Z.div_unique with (r := a - q * d); lia.
Qed.

(** [truncate], which divides with [Z.quot], discards the fraction. *)
Lemma truncate_is_truncation (x : double) (n : Z) :
  truncate x = Some n <-> is_truncation_of x n.
Proof.
  unfold truncate, is_truncation_of.
  destruct (Prim2SF x) as [s | s | | s m e].
  - split; [intros H; inversion H; reflexivity | intros ->; reflexivity].
  - split; [discriminate | contradiction].
  - split; [discriminate | contradiction].
  - set (d := 2 ^ Z.max (- e) 0). set (p := 2 ^ Z.max e 0).
    assert (Hd : 0 < d) by (apply Z.pow_pos_nonneg; lia).
    assert (Hp : 0 < p) by (apply Z.pow_pos_nonneg; lia).
    assert (Ha : 0 <= Z.pos m * p) by nia.
    pose proof (quot_bounds (Z.pos m * p) d (Z.abs n) Ha Hd) as Hq.
    assert (Hge : 0 <= Z.pos m * p / d) by (apply Z.div_pos; lia).
    pose proof (proj1 (quot_bounds (Z.pos m * p) d _ Ha Hd) eq_refl)
      as [_ Hdiv].
    destruct s.
    + replace (Z.neg m * p) with (- (Z.pos m * p)) by lia.
      rewrite Z.quot_opp_l by lia. rewrite Z.quot_div_nonneg by lia.
      split.
      * intros H.
        assert (Hn : n = - (Z.pos m * p / d)) by congruence.
        rewrite Hn, Z.abs_opp, (Z.abs_eq _ Hge). split; [exact Hdiv | lia].
      * intros [Hb Hs]. f_equal.
        assert (Z.abs n = Z.pos m * p / d)
          by (apply Hq; split; [lia | exact Hb]).
        lia.
    + rewrite Z.quot_div_nonneg by lia.
      split.
      * intros H.
        assert (Hn : n = Z.pos m * p / d) by congruence.
        rewrite Hn, (Z.abs_eq _ Hge). split; [exact Hdiv | lia].
      * intros [Hb Hs]. f_equal.
        assert (Z.abs n = Z.pos m * p / d)
          by (apply Hq; split; [lia | exact Hb]).
        lia.
Qed.

Lemma double_to_short_is_truncation (x : double) (n : Z) :
  double_to_short x = Some n <->
  is_truncation_of x n /\ -32768 <= n <= 32767.
Proof.
  rewrite <- truncate_is_truncation. split.
  - apply double_to_short_inv.
  - intros [Ht Hr]. unfold double_to_short. rewrite Ht.
    destruct (-32768 <=? n) eqn:Hlo; [|apply Z.leb_gt in Hlo; lia].
    destruct (n <=? 32767) eqn:Hhi; [|apply Z.leb_gt in Hhi; lia].
    reflexivity.
Qed.

(** C2, amended: the value that [setCommand(vx, wz)] converts for the
    speed is 1000 * max(vx + bias*wz/2, vx - bias*wz/2); the conversion
    is defined exactly when that value with its fraction discarded fits a
    signed 16-bit integer, and then gives that truncated value (it does
    not round). Whenever [setCommand] as a whole is defined the stored
    speed is that truncated value, and whenever the radius conversion is
    defined and the truncated value fits, [setCommand] is defined and
    stores it. With [bias] = 0.298, [setCommand(0.0, 0.5)] stores radius
    1 and speed 74, and the frame then written by [sendCommand()] is
    AA 55 05 01 4A 00 01 00 4F, whose byte 8 is the XOR of bytes 2 to
    7. *)
Theorem set_motion_speed_truncates (k : Kobuki) :
  (forall vx wz n,
     command_speed (bias k) vx wz = Some n <->
     is_truncation_of
       (1000 * std_max (vx + bias k * wz / 2) (vx - bias k * wz / 2)) n /\
     -32768 <= n <= 32767) /\
  (forall vx wz k',
     setCommand vx wz k = Some k' ->
     is_truncation_of
       (1000 * std_max (vx + bias k * wz / 2) (vx - bias k * wz / 2))
       (speed k') /\
     -32768 <= speed k' <= 32767) /\
  (forall vx wz r n,
     command_radius vx wz = Some r ->
     is_truncation_of
       (1000 * std_max (vx + bias k * wz / 2) (vx - bias k * wz / 2)) n ->
     -32768 <= n <= 32767 ->
     exists k',
       setCommand vx wz k = Some k' /\ speed k' = n /\ radius k' = r) /\
  (bias k = 0.298%float ->
   exists k',
     setCommand 0 0.5 k = Some k' /\ radius k' = 1 /\ speed k' = 74 /\
     sendCommand k' = [SerialWrite [170; 85; 5; 1; 74; 0; 1; 0; 79]] /\
     xor_bytes 0 [5; 1; 74; 0; 1; 0] = 79).
Proof.
  split; [|split; [|split]].
  - intros vx wz n. unfold command_speed.
    apply double_to_short_is_truncation.
  - intros vx wz k' H.
    destruct (setCommand_inv _ _ _ _ H) as (r & s & _ & Hs & ->).
    apply double_to_short_is_truncation in Hs. exact Hs.
  - intros vx wz r n Hr Ht Hn.
    exists (set_radius_speed r n k). unfold setCommand.
    rewrite Hr. unfold command_speed.
    rewrite (proj2 (double_to_short_is_truncation _ n) (conj Ht Hn)).
    repeat split.
  - intros Hb. exists (set_radius_speed 1 74 k).
    unfold setCommand. rewrite Hb, spin_radius, spin_speed.
    repeat split.
Qed.

Lemma set_motion_speed_truncates_witness :
  (setCommand 0 0.5 sample_driver = Some (set_radius_speed 1 74 sample_driver) /\
   is_truncation_of
     (1000 * std_max (0 + bias sample_driver * 0.5 / 2)
               (0 - bias sample_driver * 0.5 / 2)) 74) /\
  (setCommand 0.1 0.003 sample_driver = None /\
   command_speed (bias sample_driver) 0.1 0.003 = Some 100 /\
   is_truncation_of
     (1000 * std_max (0.1 + bias sample_driver * 0.003 / 2)
               (0.1 - bias sample_driver * 0.003 / 2)) 100) /\
  (command_radius 1 1.5 = Some 666 /\
   exists k',
     setCommand 1 1.5 sample_driver = Some k' /\ speed k' = 1223 /\
     radius k' = 666) /\
  (bias sample_driver = 0.298%float /\
   exists k',
     setCommand 0 0.5 sample_driver = Some k' /\ radius k' = 1 /\
     speed k' = 74 /\
     sendCommand k' = [SerialWrite [170; 85; 5; 1; 74; 0; 1; 0; 79]] /\
     xor_bytes 0 [5; 1; 74; 0; 1; 0] = 79).
Proof.
  pose proof (set_motion_speed_truncates sample_driver)
    as (Hspeed & Hset & Hfit & Hspin).
  split; [|split; [|split]].
  - split; [reflexivity|].
    exact (proj1 (Hset 0%float 0.5%float
                    (set_radius_speed 1 74 sample_driver) eq_refl)).
  - split; [reflexivity|]. split; [reflexivity|].
    exact (proj1 (proj1 (Hspeed 0.1%float 0.003%float 100) eq_refl)).
  - split; [reflexivity|].
    pose proof (proj1 (Hspeed 1%float 1.5%float 1223) eq_refl) as [Ht Hr].
    exact (Hfit 1%float 1.5%float 666 1223 eq_refl Ht Hr).
  - split; [reflexivity|]. exact (Hspin eq_refl).
Defined.

(** C3 as the claim states it fails at [setCommand(1.0, 1.5)]: the stored
    radius is 666, while 1000 / 1.5 rounds to 667. *)
Lemma radius_is_truncated_not_rounded :
  option_map radius (setCommand 1 1.5 sample_driver) = Some 666 /\
  spec_round (1 * 1000 / 1.5) = Some 667.
Proof. split; reflexivity. Qed.

(** C3, amended: whenever [setCommand(vx, wz)] is defined, the stored
    radius is 0 if [wz == 0]; else 1 if [vx == 0] and [wz > 0]; else -1 if
    [vx == 0] and [wz < 0] (a [wz] above or below zero is never equal to
    it); otherwise it is vx * 1000 / wz truncated toward zero, a value
    that fits a signed 16-bit integer. *)
Theorem set_motion_radius (vx wz : double) (k k' : Kobuki) :
  setCommand vx wz k = Some k' ->
  ((wz =? 0)%float = true -> radius k' = 0) /\
  ((vx =? 0)%float = true -> (0 <? wz)%float = true -> radius k' = 1) /\
  ((vx =? 0)%float = true -> (wz <? 0)%float = true -> radius k' = -1) /\
  ((wz =? 0)%float = false ->
   ~ ((vx =? 0)%float = true /\ (0 <? wz)%float = true) ->
   ~ ((vx =? 0)%float = true /\ (wz <? 0)%float = true) ->
   truncate (vx * 1000 / wz) = Some (radius k') /\
   -32768 <= radius k' <= 32767).
Proof.
  intros H.
  destruct (setCommand_inv _ _ _ _ H) as (r & s & Hr & _ & ->).
  simpl radius. unfold command_radius in Hr.
  split; [|split; [|split]].
  - intros Hw. rewrite Hw in Hr. congruence.
  - intros Hv Hp. rewrite (ltb_zero_neq wz (or_introl Hp)), Hv, Hp in Hr.
    simpl in Hr. congruence.
  - intros Hv Hn. rewrite (ltb_zero_neq wz (or_intror Hn)), Hv, Hn in Hr.
    destruct (0 <? wz)%float eqn:Hp.
    + apply ltb_zero_exclusive in Hp. congruence.
    + simpl in Hr. congruence.
  - intros Hw Hp Hn. rewrite Hw in Hr.
    destruct (vx =? 0)%float; destruct (0 <? wz)%float;
      destruct (wz <? 0)%float; simpl in Hr;
      try (exfalso; auto; fail);
      apply double_to_short_inv in Hr; exact Hr.
Qed.

Lemma set_motion_radius_witness :
  (setCommand 1 0 sample_driver = Some (set_radius_speed 0 1000 sample_driver)
   /\ radius (set_radius_speed 0 1000 sample_driver) = 0) /\
  (setCommand 0 0.5 sample_driver = Some (set_radius_speed 1 74 sample_driver)
   /\ radius (set_radius_speed 1 74 sample_driver) = 1) /\
  (setCommand 0 (-0.5) sample_driver =
     Some (set_radius_speed (-1) 74 sample_driver)
   /\ radius (set_radius_speed (-1) 74 sample_driver) = -1) /\
  (setCommand 1 1.5 sample_driver =
     Some (set_radius_speed 666 1223 sample_driver)
   /\ truncate (1 * 1000 / 1.5) =
        Some (radius (set_radius_speed 666 1223 sample_driver))
   /\ -32768 <= radius (set_radius_speed 666 1223 sample_driver) <= 32767).
Proof.
  split; [|split; [|split]].
  - split; [reflexivity|].
    exact (proj1
             (set_motion_radius 1 0 sample_driver
                (set_radius_speed 0 1000 sample_driver) eq_refl) eq_refl).
  - split; [reflexivity|].
    exact (proj1 (proj2
             (set_motion_radius 0 0.5 sample_driver
                (set_radius_speed 1 74 sample_driver) eq_refl))
             eq_refl eq_refl).
  - split; [reflexivity|].
    exact (proj1 (proj2 (proj2
             (set_motion_radius 0 (-0.5) sample_driver
                (set_radius_speed (-1) 74 sample_driver) eq_refl)))
             eq_refl eq_refl).
  - split; [reflexivity|].
    refine (proj2 (proj2 (proj2
             (set_motion_radius 1 1.5 sample_driver
                (set_radius_speed 666 1223 sample_driver) eq_refl)))
             eq_refl _ _);
      intros [H _]; discriminate H.
Defined.

(** C8 as the claim states it fails on the initialised driver, which is
    running: after [stop()] it is still running. *)
Lemma stop_leaves_is_running :
  is_running sample_driver = true /\
  option_map (fun r => is_running (fst (fst r))) (stop sample_driver) =
    Some true.
Proof. split; reflexivity. Qed.

(** C8, amended: [stop()] sets [is_enabled = false] and leaves
    [is_running] as it was, stores speed 0 and radius 0 and writes the one
    zero-motion frame AA 55 05 01 00 00 00 00 04; a second call leaves the
    driver state as the first call left it (and writes the frame again). *)
Theorem stop_disables_and_halts (k : Kobuki) :
  bias k = 0.298%float ->
  exists k',
    stop k = Some (k', [SerialWrite [170; 85; 5; 1; 0; 0; 0; 0; 4]], true) /\
    is_enabled k' = false /\ is_running k' = is_running k /\
    speed k' = 0 /\ radius k' = 0 /\
    stop k' = Some (k', [SerialWrite [170; 85; 5; 1; 0; 0; 0; 0; 4]], true).
Proof.
  intros Hb.
  exists (set_is_enabled false (set_radius_speed 0 0 k)).
  assert (Hstop : forall k0, bias k0 = 0.298%float ->
            stop k0 =
              Some (set_is_enabled false (set_radius_speed 0 0 k0),
                    [SerialWrite [170; 85; 5; 1; 0; 0; 0; 0; 4]], true)).
  { intros k0 H0. unfold stop, setCommand.
    rewrite H0, halt_radius, halt_speed. reflexivity. }
  split; [apply Hstop; exact Hb|].
  repeat split.
  apply (Hstop (set_is_enabled false (set_radius_speed 0 0 k))). exact Hb.
Qed.

Lemma stop_disables_and_halts_witness :
  bias sample_driver = 0.298%float /\
  exists k',
    stop sample_driver =
      Some (k', [SerialWrite [170; 85; 5; 1; 0; 0; 0; 0; 4]], true) /\
    is_enabled k' = false /\ is_running k' = is_running sample_driver /\
    speed k' = 0 /\ radius k' = 0 /\
    stop k' = Some (k', [SerialWrite [170; 85; 5; 1; 0; 0; 0; 0; 4]], true).
Proof.
  split; [reflexivity|].
  exact (stop_disables_and_halts sample_driver eq_refl).
Defined.

(** ** The joint-state accessor *)

(** C10: [getJointState] returns the accumulated position and the
    velocity of the left wheel when the name is exactly "wheel_left", and
    those of the right wheel for every other name, "wheel_right" or not;
    [enabled] is [is_connected && is_running && is_enabled] either way. *)
Theorem joint_state_right_unless_wheel_left (k : Kobuki) (js : JointState) :
  (name js = "wheel_left"%string ->
   position (getJointState k js) = last_rad_left k /\
   velocity (getJointState k js) = last_velocity_left k) /\
  (name js <> "wheel_left"%string ->
   position (getJointState k js) = last_rad_right k /\
   velocity (getJointState k js) = last_velocity_right k) /\
  enabled (getJointState k js) =
    is_connected k && is_running k && is_enabled k /\
  name (getJointState k js) = name js.
Proof.
  unfold getJointState.
  destruct (String.eqb_spec (name js) "wheel_left") as [He | Hne].
  - split; [intros _; split; reflexivity|].
    split; [intros Hn; contradiction|]. split; reflexivity.
  - split; [intros He; contradiction|].
    split; [intros _; split; reflexivity|]. split; reflexivity.
Qed.

Lemma joint_state_right_unless_wheel_left_witness :
  (position
     (getJointState wrapped_driver (mkJointState "wheel_left" 0 0 false)) =
     last_rad_left wrapped_driver /\
   velocity
     (getJointState wrapped_driver (mkJointState "wheel_left" 0 0 false)) =
     last_velocity_left wrapped_driver) /\
  (position
     (getJointState wrapped_driver (mkJointState "caster" 0 0 false)) =
     last_rad_right wrapped_driver /\
   velocity
     (getJointState wrapped_driver (mkJointState "caster" 0 0 false)) =
     last_velocity_right wrapped_driver).
Proof.
  split.
  - exact (proj1
             (joint_state_right_unless_wheel_left wrapped_driver
                (mkJointState "wheel_left" 0 0 false)) eq_refl).
  - refine (proj1 (proj2
             (joint_state_right_unless_wheel_left wrapped_driver
                (mkJointState "caster" 0 0 false))) _).
    intros H. discriminate H.
Defined.

(** ** Odometry *)

(** The difference computed by the code, a mask with 0xffff followed by a
    conversion to [short], is the wrap-safe difference of the
    specification. *)
Lemma diff_ticks_signed_wrap16 (curr last : Z) :
  diff_ticks curr last = signed_wrap16 (curr - last).
Proof.
  unfold diff_ticks, signed_wrap16, to_short, as_signed16.
  change 65535 with (Z.ones 16). rewrite Z.land_ones by lia.
  change (2 ^ 16) with 65536. change (2 ^ 15) with 32768.
  rewrite Z.mod_mod by lia. reflexivity.
Qed.

Lemma signed_wrap16_range (d : Z) : -32768 <= signed_wrap16 d <= 32767.
Proof.
  unfold signed_wrap16, as_signed16.
  change (2 ^ 16) with 65536. change (2 ^ 15) with 32768.
  pose proof (Z.mod_pos_bound d 65536 ltac:(lia)) as H.
  destruct (d mod 65536 <? 32768) eqn:E;
    [apply Z.ltb_lt in E | apply Z.ltb_ge in E]; lia.
Qed.

(** The wrap-safe difference is the difference itself up to a multiple of
    2^16. *)
Lemma signed_wrap16_congruent (d : Z) :
  (signed_wrap16 d - d) mod 65536 = 0.
Proof.
  unfold signed_wrap16, as_signed16.
  change (2 ^ 16) with 65536. change (2 ^ 15) with 32768.
  pose proof (Z.div_mod d 65536 ltac:(lia)) as H.
  destruct (d mod 65536 <? 32768).
  - replace (d mod 65536 - d) with ((- (d / 65536)) * 65536) by lia.
    apply Z.mod_mul. lia.
  - replace (d mod 65536 - 65536 - d) with ((- (d / 65536) - 1) * 65536)
      by lia.
    apply Z.mod_mul. lia.
Qed.

Lemma double_of_int_11 : double_of_int 11 = 11%float.
Proof. reflexivity. Qed.

(** C4: once the first sample has been taken, the tick delta that
    [updateOdometry] computes from the previous sample [p] and the
    current sample [c] of an encoder is [(c - p) mod 2^16] read as a
    signed 16-bit integer, and it is what the accumulated angle and
    length advance by; with [p = 65530] and [c = 5] on the left wheel the
    delta is 11 and [last_rad_left] grows by 11 * [tick_to_rad]. *)
Theorem encoder_delta_is_signed_wrap (k : Kobuki) :
  init_l k = true -> init_r k = true ->
  let k' := fst (updateOdometry k) in
  let cl := left_encoder (kobuki_default k) in
  let cr := right_encoder (kobuki_default k) in
  let dl := signed_wrap16 (cl - last_tick_left k) in
  let dr := signed_wrap16 (cr - last_tick_right k) in
  diff_ticks cl (last_tick_left k) = as_signed16 ((cl - last_tick_left k) mod 2 ^ 16) /\
  diff_ticks cr (last_tick_right k) = as_signed16 ((cr - last_tick_right k) mod 2 ^ 16) /\
  last_rad_left k' = (last_rad_left k + tick_to_rad k * double_of_int dl)%float /\
  last_rad_right k' = (last_rad_right k + tick_to_rad k * double_of_int dr)%float /\
  last_mm_left k' =
    (last_mm_left k + tick_to_mm k / 1000 * double_of_int dl)%float /\
  last_mm_right k' =
    (last_mm_right k + tick_to_mm k / 1000 * double_of_int dr)%float /\
  last_tick_left k' = cl /\ last_tick_right k' = cr /\
  (last_tick_left k = 65530 -> cl = 5 ->
   dl = 11 /\
   last_rad_left k' = (last_rad_left k + tick_to_rad k * 11)%float).
Proof.
  intros Hl Hr k' cl cr dl dr.
  assert (Hradl :
    last_rad_left k' = (last_rad_left k + tick_to_rad k * double_of_int dl)%float).
  { subst k' dl cl. unfold updateOdometry. cbn [fst set_odometry last_rad_left].
    rewrite Hl, diff_ticks_signed_wrap16. reflexivity. }
  split; [apply diff_ticks_signed_wrap16|].
  split; [apply diff_ticks_signed_wrap16|].
  split; [exact Hradl|].
  split.
  { subst k' dr cr. unfold updateOdometry. cbn [fst set_odometry last_rad_right].
    rewrite Hr, diff_ticks_signed_wrap16. reflexivity. }
  split.
  { subst k' dl cl. unfold updateOdometry. cbn [fst set_odometry last_mm_left].
    rewrite Hl, diff_ticks_signed_wrap16. reflexivity. }
  split.
  { subst k' dr cr. unfold updateOdometry. cbn [fst set_odometry last_mm_right].
    rewrite Hr, diff_ticks_signed_wrap16. reflexivity. }
  split; [reflexivity|]. split; [reflexivity|].
  intros Hp Hc.
  assert (Hd : dl = 11) by (subst dl; rewrite Hp, Hc; reflexivity).
  split; [exact Hd|].
  rewrite Hradl, Hd, double_of_int_11. reflexivity.
Qed.

Lemma encoder_delta_is_signed_wrap_witness :
  (init_l wrapped_driver = true /\ init_r wrapped_driver = true /\
   last_tick_left wrapped_driver = 65530 /\
   left_encoder (kobuki_default wrapped_driver) = 5) /\
  signed_wrap16 (5 - 65530) = 11 /\
  last_rad_left (fst (updateOdometry wrapped_driver)) =
    (last_rad_left wrapped_driver + tick_to_rad wrapped_driver * 11)%float.
Proof.
  split; [repeat split|].
  exact (proj2 (proj2 (proj2 (proj2 (proj2 (proj2 (proj2 (proj2
           (encoder_delta_is_signed_wrap wrapped_driver eq_refl eq_refl))))))))
           eq_refl eq_refl).
Defined.

(** C6: [updateOdometry] always advances the accumulated wheel angles by
    the tick deltas and reports them. When the device timestamp equals
    the previous one, both reported wheel velocities are 0. When it
    differs, [dt] is the wrap-safe difference of the timestamps divided
    by 1000 and each reported velocity is [tick_to_rad] times the tick
    delta, divided by [dt]. *)
Theorem wheel_velocity_from_timestamps (k : Kobuki) :
  let ts := time_stamp (kobuki_default k) in
  let k' := fst (updateOdometry k) in
  let o := snd (updateOdometry k) in
  let pl :=
    if init_l k then last_tick_left k else left_encoder (kobuki_default k) in
  let pr :=
    if init_r k then last_tick_right k
    else right_encoder (kobuki_default k) in
  let dl :=
    double_of_int (signed_wrap16 (left_encoder (kobuki_default k) - pl)) in
  let dr :=
    double_of_int (signed_wrap16 (right_encoder (kobuki_default k) - pr)) in
  (last_rad_left k' = (last_rad_left k + tick_to_rad k * dl)%float /\
   last_rad_right k' = (last_rad_right k + tick_to_rad k * dr)%float /\
   wheel_left_position o = last_rad_left k' /\
   wheel_right_position o = last_rad_right k') /\
  (ts = last_timestamp k ->
   wheel_left_velocity o = 0%float /\ wheel_right_velocity o = 0%float) /\
  (ts <> last_timestamp k ->
   let dt :=
     (double_of_int (signed_wrap16 (ts - last_timestamp k)) / 1000)%float in
   last_diff_time k' = dt /\
   wheel_left_velocity o = (tick_to_rad k * dl / dt)%float /\
   wheel_right_velocity o = (tick_to_rad k * dr / dt)%float /\
   last_velocity_left k' = wheel_left_velocity o /\
   last_velocity_right k' = wheel_right_velocity o /\
   last_timestamp k' = ts).
Proof.
  intros ts k' o pl pr dl dr.
  subst ts k' o dl dr pl pr. unfold updateOdometry.
  cbn [fst snd set_odometry last_rad_left last_rad_right
       wheel_left_position wheel_right_position wheel_left_velocity
       wheel_right_velocity last_diff_time last_velocity_left
       last_velocity_right last_timestamp].
  rewrite !diff_ticks_signed_wrap16.
  split; [repeat split|]. split.
  - intros He. rewrite He, Z.eqb_refl. split; reflexivity.
  - intros Hne. apply Z.eqb_neq in Hne. rewrite Hne.
    cbn [negb]. repeat split.
Qed.

Lemma wheel_velocity_from_timestamps_witness :
  (time_stamp (kobuki_default stalled_driver) = last_timestamp stalled_driver
   /\ wheel_left_velocity (snd (updateOdometry stalled_driver)) = 0%float
   /\ wheel_right_velocity (snd (updateOdometry stalled_driver)) = 0%float) /\
  (time_stamp (kobuki_default wrapped_driver) <> last_timestamp wrapped_driver
   /\ last_diff_time (fst (updateOdometry wrapped_driver)) =
        (double_of_int (signed_wrap16 (12 - 65000)) / 1000)%float
   /\ wheel_left_velocity (snd (updateOdometry wrapped_driver)) =
        (tick_to_rad wrapped_driver
         * double_of_int (signed_wrap16 (5 - 65530))
         / (double_of_int (signed_wrap16 (12 - 65000)) / 1000))%float).
Proof.
  split.
  - split; [reflexivity|].
    exact (proj1 (proj2 (wheel_velocity_from_timestamps stalled_driver))
             eq_refl).
  - assert (Hne : time_stamp (kobuki_default wrapped_driver)
                  <> last_timestamp wrapped_driver)
      by (intros H; discriminate H).
    split; [exact Hne|].
    pose proof (proj2 (proj2 (wheel_velocity_from_timestamps wrapped_driver))
                  Hne) as (Hdt & Hvl & _).
    split; [exact Hdt | exact Hvl].
Defined.

(** ** The set of seen header ids *)

Lemma set_insert_In (b x : Z) (s : list Z) :
  In x (set_insert b s) <-> x = b \/ In x s.
Proof.
  induction s as [|y s IH]; simpl.
  - intuition.
  - destruct (b <? y) eqn:Hlt; [simpl; intuition|].
    destruct (b =? y) eqn:Heq.
    + apply Z.eqb_eq in Heq. subst y. simpl. intuition.
    + simpl. rewrite IH. intuition.
Qed.

Lemma set_insert_sorted (b : Z) (s : list Z) :
  StronglySorted Z.lt s -> StronglySorted Z.lt (set_insert b s).
Proof.
  induction s as [|y s IH]; intros Hs; simpl.
  - constructor; constructor.
  - inversion Hs as [|? ? Hs' Hy]; subst.
    destruct (b <? y) eqn:Hlt.
    + apply Z.ltb_lt in Hlt. constructor; [exact Hs|].
      constructor; [exact Hlt|].
      rewrite Forall_forall in *. intros z Hz. specialize (Hy z Hz). lia.
    + destruct (b =? y) eqn:Heq; [exact Hs|].
      apply Z.ltb_ge in Hlt. apply Z.eqb_neq in Heq.
      constructor; [apply IH; exact Hs'|].
      rewrite Forall_forall in *. intros z Hz.
      apply set_insert_In in Hz. destruct Hz as [-> | Hz]; [lia | auto].
Qed.

(** In an ascending set whose members are all at least [d], a member [d]
    is the first one. *)
Lemma sorted_least_first (d : Z) (s : list Z) :
  StronglySorted Z.lt s -> Forall (fun x => d <= x) s -> In d s ->
  exists rest, s = d :: rest.
Proof.
  intros Hs Hge Hin. destruct s as [|x s]; [contradiction|].
  inversion Hs as [|? ? _ Hx]; subst. inversion Hge as [|? ? Hdx _]; subst.
  destruct Hin as [-> | Hin]; [eauto|].
  rewrite Forall_forall in Hx. specialize (Hx d Hin). lia.
Qed.

(** ** The observer signals among the effects *)

Lemma emitted_app (es1 es2 : list Effect) :
  emitted (es1 ++ es2) = emitted es1 ++ emitted es2.
Proof. unfold emitted. apply flat_map_app. Qed.

Lemma emitted_map_Emit (l : list Signal) : emitted (map Emit l) = l.
Proof. induction l as [|s l IH]; simpl; [|rewrite IH]; reflexivity. Qed.

Lemma emitted_sendCommand (k : Kobuki) : emitted (sendCommand k) = [].
Proof. reflexivity. Qed.

(** ** The frame dispatcher *)

Section DispatcherFacts.

Variable header_id : Header -> Z.

Lemma lookup_header_Some (b : Z) (h : Header) :
  lookup_header header_id b = Some h -> b = header_id h.
Proof.
  unfold lookup_header. intros H. apply find_some in H.
  apply Z.eqb_eq. exact (proj2 H).
Qed.

Lemma all_headers_complete (h : Header) : In h all_headers.
Proof. destruct h; simpl; tauto. Qed.

Lemma lookup_header_recognised (h : Header) :
  exists h', lookup_header header_id (header_id h) = Some h'.
Proof.
  unfold lookup_header.
  destruct (find (fun h0 => header_id h =? header_id h0) all_headers)
    as [h'|] eqn:E; [eauto|].
  pose proof (find_none _ _ E h (all_headers_complete h)) as Hn.
  simpl in Hn. rewrite Z.eqb_refl in Hn. discriminate.
Qed.

Lemma lookup_header_default :
  lookup_header header_id (header_id header_default) = Some header_default.
Proof. unfold lookup_header. simpl. rewrite Z.eqb_refl. reflexivity. Qed.

Lemma lookup_header_injective (h : Header) :
  (forall a b, header_id a = header_id b -> a = b) ->
  lookup_header header_id (header_id h) = Some h.
Proof.
  intros Hinj. destruct (lookup_header_recognised h) as [h' Hh'].
  rewrite Hh'. f_equal. symmetry.
  apply Hinj, lookup_header_Some, Hh'.
Qed.

Lemma dispatch_record_buffer (h : Header) (k : Kobuki) :
  data_buffer (dispatch_record h k) =
    skipn (2 + Z.to_nat (nth 1 (data_buffer k) 0)) (data_buffer k).
Proof. reflexivity. Qed.

Lemma dispatch_record_index (h : Header) (k : Kobuki) :
  sig_index (dispatch_record h k) =
    set_insert (nth 0 (data_buffer k) 0) (sig_index k).
Proof. reflexivity. Qed.

(** With as many turns allowed as the buffer has bytes the loop always
    ends by itself, leaving at most one byte in the buffer and a
    well-formed set of seen ids. *)
Lemma dispatch_loop_total (fuel : nat) :
  forall k,
    (List.length (data_buffer k) <= fuel)%nat ->
    index_ok header_id (sig_index k) ->
    exists k' b,
      dispatch_loop header_id fuel k = Some (k', b) /\
      (List.length (data_buffer k') <= 1)%nat /\
      index_ok header_id (sig_index k').
Proof.
  induction fuel as [|fuel IH]; intros k Hlen Hok.
  - exists k, false. simpl.
    destruct (1 <? List.length (data_buffer k))%nat eqn:E.
    + apply Nat.ltb_lt in E. lia.
    + repeat split; try apply Hok. lia.
  - simpl. destruct (1 <? List.length (data_buffer k))%nat eqn:E.
    + apply Nat.ltb_lt in E.
      destruct (lookup_header header_id (nth 0 (data_buffer k) 0)) as [h|] eqn:Hh.
      * apply IH.
        -- rewrite dispatch_record_buffer, length_skipn. lia.
        -- rewrite dispatch_record_index. destruct Hok as [Hs Hr]. split.
           ++ apply set_insert_sorted, Hs.
           ++ rewrite Forall_forall in *. intros x Hx.
              apply set_insert_In in Hx. destruct Hx as [-> | Hx].
              ** exists h. apply lookup_header_Some, Hh.
              ** apply Hr, Hx.
      * exists (clear_data_buffer k), true.
        repeat split; try apply Hok. simpl. lia.
    + apply Nat.ltb_ge in E. exists k, false.
      repeat split; try apply Hok. exact E.
Qed.

Lemma deserialise_sub_record (hdr : Z) (data rest : list Z) :
  deserialise (sub_record hdr data ++ rest) = (data, rest).
Proof.
  unfold deserialise, sub_record. cbn [app nth]. rewrite Nat2Z.id.
  cbn [skipn Nat.add]. f_equal.
  - rewrite firstn_app, firstn_all, Nat.sub_diag. cbn [firstn].
    apply app_nil_r.
  - rewrite skipn_app, skipn_all, Nat.sub_diag. reflexivity.
Qed.

(** The loop takes a sequence of sub-records of recognised headers off
    the front of the buffer, one per turn, and puts their ids into
    [sig_index]. *)
Lemma dispatch_loop_records (rs : list (Header * list Z)) :
  forall k fuel tail,
    data_buffer k = records_bytes header_id rs ++ tail ->
    (List.length (data_buffer k) <= fuel)%nat ->
    exists k1 fuel1,
      dispatch_loop header_id fuel k = dispatch_loop header_id fuel1 k1 /\
      data_buffer k1 = tail /\
      (List.length tail <= fuel1)%nat /\
      sig_index k1 =
        fold_left (fun s r => set_insert (header_id (fst r)) s) rs
          (sig_index k).
Proof.
  induction rs as [|[h d] rs IH]; intros k fuel tail Hbuf Hlen.
  - exists k, fuel. simpl in Hbuf. rewrite Hbuf in Hlen. auto.
  - cbn [records_bytes flat_map fst snd] in Hbuf.
    fold (records_bytes header_id rs) in Hbuf.
    rewrite <- app_assoc in Hbuf.
    assert (Hlen2 : (2 + List.length d
                     + List.length (records_bytes header_id rs ++ tail)
                     <= fuel)%nat).
    { rewrite Hbuf in Hlen. unfold sub_record in Hlen.
      cbn [app List.length] in Hlen. rewrite length_app in Hlen. lia. }
    destruct fuel as [|fuel]; [lia|].
    destruct (lookup_header_recognised h) as [h' Hh'].
    assert (Hstep : dispatch_loop header_id (S fuel) k = dispatch_loop header_id fuel (dispatch_record h' k)).
    { simpl. rewrite Hbuf. unfold sub_record at 1 2. cbn [app List.length nth].
      rewrite Hh'. reflexivity. }
    destruct (IH (dispatch_record h' k) fuel tail)
      as (k1 & fuel1 & Hloop & Hb1 & Hf1 & Hs1).
    + unfold dispatch_record. rewrite Hbuf, deserialise_sub_record.
      reflexivity.
    + unfold dispatch_record. rewrite Hbuf, deserialise_sub_record.
      cbn [set_decoder data_buffer]. lia.
    + exists k1, fuel1. rewrite Hstep, Hloop.
      repeat split; try assumption.
      rewrite Hs1, dispatch_record_index, Hbuf. reflexivity.
Qed.

(** The notification pass emits the signals of the seen ids, in the
    order of the set, and leaves the set as it is. *)
Lemma notify_fold (ids : list Z) :
  forall acc,
    snd (fold_left (notify_one header_id) ids acc) =
      snd acc ++ map Emit (signals_of_ids header_id ids) /\
    sig_index (fst (fold_left (notify_one header_id) ids acc)) =
      sig_index (fst acc) /\
    (data_buffer (fst acc) = [] ->
     data_buffer (fst (fold_left (notify_one header_id) ids acc)) = []).
Proof.
  induction ids as [|id ids IH]; intros acc; simpl.
  - rewrite app_nil_r. auto.
  - destruct (IH (notify_one header_id acc id)) as (He & Hs & Hb).
    rewrite He, Hs. unfold notify_one in *.
    destruct (lookup_header header_id id) as [h|]; simpl in *.
    + rewrite map_app, app_assoc. auto.
    + auto.
Qed.

Lemma notify_emitted (k : Kobuki) :
  emitted (snd (notify header_id k)) = signals_of_ids header_id (sig_index k)
  /\ sig_index (fst (notify header_id k)) = sig_index k
  /\ (data_buffer k = [] -> data_buffer (fst (notify header_id k)) = []).
Proof.
  unfold notify.
  destruct (notify_fold (sig_index k) (k, [])) as (He & Hs & Hb).
  rewrite He. simpl. rewrite emitted_map_Emit. auto.
Qed.

Lemma dispatch_loop_done (fuel : nat) (k : Kobuki) :
  (List.length (data_buffer k) <= 1)%nat ->
  dispatch_loop header_id fuel k = Some (k, false).
Proof.
  intros Hlen. apply Nat.ltb_ge in Hlen.
  destruct fuel; simpl; rewrite Hlen; reflexivity.
Qed.

Lemma dispatch_loop_unknown (fuel : nat) (k : Kobuki) :
  (1 < List.length (data_buffer k) <= fuel)%nat ->
  lookup_header header_id (nth 0 (data_buffer k) 0) = None ->
  dispatch_loop header_id fuel k = Some (clear_data_buffer k, true).
Proof.
  intros [Hlen Hfuel] Hu. destruct fuel; [lia|].
  apply Nat.ltb_lt in Hlen. simpl. rewrite Hlen, Hu. reflexivity.
Qed.

Lemma seen_ids_fold_In (rs : list (Header * list Z)) :
  forall s r,
    In r rs ->
    In (header_id (fst r))
      (fold_left (fun s r => set_insert (header_id (fst r)) s) rs s).
Proof.
  assert (Hkeep : forall (l : list (Header * list Z)) s x,
            In x s ->
            In x (fold_left
                    (fun s r => set_insert (header_id (fst r)) s) l s)).
  { induction l as [|a l IH]; intros s x Hx; simpl; [exact Hx|].
    apply IH, set_insert_In. right. exact Hx. }
  induction rs as [|a rs IH]; intros s r Hr; [contradiction|].
  simpl. destruct Hr as [-> | Hr].
  - apply Hkeep, set_insert_In. left. reflexivity.
  - apply IH, Hr.
Qed.

Lemma seen_ids_sorted (rs : list (Header * list Z)) :
  StronglySorted Z.lt (seen_ids header_id rs).
Proof.
  unfold seen_ids.
  assert (H : StronglySorted Z.lt (@nil Z)) by constructor.
  revert H. generalize (@nil Z).
  induction rs as [|r rs IH]; intros s Hs; simpl; [exact Hs|].
  apply IH, set_insert_sorted, Hs.
Qed.

Lemma signals_of_ids_incl (h : Header) (ids : list Z) :
  lookup_header header_id (header_id h) = Some h ->
  In (header_id h) ids ->
  incl (signals_of h) (signals_of_ids header_id ids).
Proof.
  intros Hl Hin s Hs. unfold signals_of_ids. apply in_flat_map.
  exists (header_id h). rewrite Hl. auto.
Qed.

End DispatcherFacts.

Lemma spec_header_id_injective (a b : Header) :
  spec_header_id a = spec_header_id b -> a = b.
Proof. destruct a, b; simpl; intros H; try reflexivity; discriminate H. Qed.

Lemma spec_header_id_default_least (h : Header) :
  spec_header_id header_default <= spec_header_id h.
Proof. destruct h; simpl; lia. Qed.

(** C5 as the claim states it fails on a packet whose payload is a
    [default] sub-record followed by the unknown header id 0xEE: the
    buffer is cleared, but [sig_index] still holds the id 0x01 seen
    before, and its two signals are emitted. *)
Lemma unknown_header_keeps_seen_ids :
  lookup_header spec_header_id 238 = None /\
  exists k' es,
    runnable_packet spec_header_id packet_with_unknown_header sample_driver =
      Some (k', es, true) /\
    data_buffer k' = [] /\ sig_index k' = [1] /\
    emitted es = [sig_sensor_data; sig_wheel_state].
Proof.
  split; [reflexivity|].
  eexists. eexists. split; [reflexivity|]. repeat split.
Qed.

(** C5, amended: when the dispatch of a payload meets an unrecognised
    header id after a sequence of sub-records of recognised headers, the
    rest of the payload is cleared and the dispatch of that packet ends;
    no error is raised, [sig_index] keeps the ids seen earlier in that
    payload, and the observer signals of every one of them are still
    emitted. *)
Theorem unknown_header_flushes_buffer (header_id : Header -> Z)
    (k : Kobuki) (stx1 stx2 len : Z) (rs : list (Header * list Z))
    (u : Z) (rest : list Z) :
  (forall a b, header_id a = header_id b -> a = b) ->
  protocol_version k = "2.0"%string ->
  lookup_header header_id u = None ->
  rest <> [] ->
  exists k' es,
    runnable_packet header_id
      (stx1 :: stx2 :: len :: records_bytes header_id rs ++ u :: rest) k =
      Some (k', es, true) /\
    data_buffer k' = [] /\
    sig_index k' = seen_ids header_id rs /\
    StronglySorted Z.lt (sig_index k') /\
    emitted es = signals_of_ids header_id (sig_index k') /\
    (forall r, In r rs ->
       In (header_id (fst r)) (sig_index k') /\
       incl (signals_of (fst r)) (emitted es)).
Proof.
  intros Hinj Hv Hu Hrest.
  unfold runnable_packet. rewrite Hv. cbn [String.eqb Ascii.eqb Bool.eqb skipn].
  cbn [set_decoder data_buffer kobuki_default pool].
  set (buf := records_bytes header_id rs ++ u :: rest).
  set (k2 := set_decoder buf [] (kobuki_default k) (pool k) _).
  destruct (dispatch_loop_records header_id rs k2 (List.length buf) (u :: rest))
    as (k1 & fuel1 & Hloop & Hb1 & Hf1 & Hs1); [reflexivity | apply le_n |].
  rewrite Hloop.
  rewrite (dispatch_loop_unknown header_id fuel1 k1).
  2:{ rewrite Hb1. destruct rest; [contradiction|]. simpl in *. lia. }
  2:{ rewrite Hb1. exact Hu. }
  cbn [bind fst snd].
  destruct (notify header_id (clear_data_buffer k1)) as [k3 es] eqn:Hn.
  destruct (notify_emitted header_id (clear_data_buffer k1)) as (He & Hs & Hb).
  rewrite Hn in He, Hs, Hb. cbn [fst snd] in He, Hs, Hb.
  assert (Hidx : sig_index k3 = seen_ids header_id rs).
  { rewrite Hs. cbn [clear_data_buffer set_decoder sig_index]. exact Hs1. }
  assert (Hem : emitted (es ++ sendCommand k3) =
                signals_of_ids header_id (seen_ids header_id rs)).
  { rewrite emitted_app, emitted_sendCommand, app_nil_r, He.
    cbn [clear_data_buffer set_decoder sig_index]. rewrite Hs1. reflexivity. }
  exists k3, (es ++ sendCommand k3).
  split; [reflexivity|]. split; [apply Hb; reflexivity|].
  split; [exact Hidx|].
  split; [rewrite Hidx; apply seen_ids_sorted|].
  split; [rewrite Hidx; exact Hem|].
  intros r Hr.
  assert (Hin : In (header_id (fst r)) (seen_ids header_id rs))
    by (apply seen_ids_fold_In, Hr).
  split; [rewrite Hidx; exact Hin|].
  rewrite Hem. apply signals_of_ids_incl; [|exact Hin].
  apply lookup_header_injective, Hinj.
Qed.

Lemma unknown_header_flushes_buffer_witness :
  170 :: 85 :: 19
    :: records_bytes spec_header_id
         [(header_default, [1; 2; 3; 4; 5; 6; 7; 8; 9; 10; 11; 12; 13; 14; 15])]
       ++ 238 :: [0; 243] = packet_with_unknown_header /\
  exists k' es,
    runnable_packet spec_header_id
      (170 :: 85 :: 19
         :: records_bytes spec_header_id
              [(header_default,
                [1; 2; 3; 4; 5; 6; 7; 8; 9; 10; 11; 12; 13; 14; 15])]
            ++ 238 :: [0; 243]) sample_driver = Some (k', es, true) /\
    data_buffer k' = [] /\
    sig_index k' =
      seen_ids spec_header_id
        [(header_default, [1; 2; 3; 4; 5; 6; 7; 8; 9; 10; 11; 12; 13; 14; 15])] /\
    StronglySorted Z.lt (sig_index k') /\
    emitted es = signals_of_ids spec_header_id (sig_index k') /\
    (forall r,
       In r [(header_default,
              [1; 2; 3; 4; 5; 6; 7; 8; 9; 10; 11; 12; 13; 14; 15])] ->
       In (spec_header_id (fst r)) (sig_index k') /\
       incl (signals_of (fst r)) (emitted es)).
Proof.
  split; [reflexivity|].
  refine (unknown_header_flushes_buffer spec_header_id sample_driver 170 85 19
            [(header_default,
              [1; 2; 3; 4; 5; 6; 7; 8; 9; 10; 11; 12; 13; 14; 15])]
            238 [0; 243] spec_header_id_injective eq_refl eq_refl _).
  intros H. discriminate H.
Defined.

(** The second [switch] emits, for each header, what the specification
    lists for it. *)
Lemma signals_of_spec_emission (h : Header) : signals_of h = spec_emission h.
Proof. destruct h; reflexivity. Qed.

Section SeenHeaders.

Variable header_id : Header -> Z.
Hypothesis header_id_injective : forall a b, header_id a = header_id b -> a = b.

(** Every id in the set of seen ids is the id of a sub-record. *)
Lemma seen_ids_In_inv (rs : list (Header * list Z)) (x : Z) :
  In x (seen_ids header_id rs) ->
  exists r, In r rs /\ x = header_id (fst r).
Proof.
  unfold seen_ids.
  assert (H : forall (l : list (Header * list Z)) s,
            In x (fold_left (fun s r => set_insert (header_id (fst r)) s) l s)
            -> In x s \/ exists r, In r l /\ x = header_id (fst r)).
  { induction l as [|a l IH]; intros s Hx; simpl in Hx; [auto|].
    destruct (IH _ Hx) as [Hs | (r & Hr & ->)].
    - apply set_insert_In in Hs. destruct Hs as [-> | Hs]; [|auto].
      right. exists a. split; [left; reflexivity | reflexivity].
    - right. exists r. split; [right; exact Hr | reflexivity]. }
  intros Hx. destruct (H rs [] Hx) as [[] | Hr]. exact Hr.
Qed.

(** A set of recognised ids is the image of a list of headers, and its
    notification is what the specification asks for these headers. *)
Lemma headers_of_ids (ids : list Z) :
  (forall id, In id ids -> exists h, id = header_id h) ->
  exists hs,
    map header_id hs = ids /\
    signals_of_ids header_id ids = flat_map spec_emission hs /\
    (forall h, In h hs <-> In (header_id h) ids).
Proof.
  induction ids as [|id ids IH]; intros Hrec.
  - exists []. repeat split; simpl; tauto.
  - destruct IH as (hs & Hmap & Hsig & Hin).
    { intros x Hx. apply Hrec. right. exact Hx. }
    destruct (Hrec id (or_introl eq_refl)) as [h ->].
    exists (h :: hs). split; [simpl; rewrite Hmap; reflexivity|]. split.
    + cbn [signals_of_ids flat_map].
      rewrite (lookup_header_injective header_id h header_id_injective).
      rewrite signals_of_spec_emission. f_equal. exact Hsig.
    + intros h0. simpl. rewrite Hin. split.
      * intros [-> | H]; auto.
      * intros [H | H]; [left; apply header_id_injective; exact H | auto].
Qed.

End SeenHeaders.

(** C7: for every packet handled under protocol "2.0" the dispatch ends
    and the observer signals emitted are those of the ids in [sig_index],
    taken in ascending order of id. The id of [default] being the least
    header id, when it is in the set it is the first one notified, before
    every other id of the packet, and its notification is
    [sig_sensor_data] immediately followed by [sig_wheel_state] (the
    joint-state signal). For a packet made of sub-records of recognised
    headers (a successfully decoded frame), no unknown header is met;
    [sig_index] holds the ids of exactly the headers present in the
    frame; what is emitted is, header by header in ascending order of
    id, the observer signal of the header, followed by the joint-state
    signal after [default]; so the signal of every header of the frame
    is emitted, and when [default] is in the frame it comes first, once,
    with the joint-state signal right after it. *)
Theorem signals_in_ascending_id_order (header_id : Header -> Z)
    (k : Kobuki) (packet : list Z) :
  (forall a b, header_id a = header_id b -> a = b) ->
  (forall h, header_id header_default <= header_id h) ->
  protocol_version k = "2.0"%string ->
  exists k' es b,
    runnable_packet header_id packet k = Some (k', es, b) /\
    StronglySorted Z.lt (sig_index k') /\
    emitted es = signals_of_ids header_id (sig_index k') /\
    (In (header_id header_default) (sig_index k') ->
     exists ids,
       sig_index k' = header_id header_default :: ids /\
       Forall (fun id => header_id header_default < id) ids /\
       emitted es =
         sig_sensor_data :: sig_wheel_state :: signals_of_ids header_id ids) /\
    (forall stx1 stx2 len rs residue,
       packet = stx1 :: stx2 :: len :: records_bytes header_id rs ++ residue ->
       (List.length residue <= 1)%nat ->
       b = false /\ sig_index k' = seen_ids header_id rs /\
       exists hs,
         sig_index k' = map header_id hs /\
         (forall h, In h hs <-> In h (map fst rs)) /\
         emitted es = flat_map spec_emission hs /\
         (forall h, In h (map fst rs) -> In (observer_signal h) (emitted es)) /\
         (In header_default (map fst rs) ->
          exists hs',
            hs = header_default :: hs' /\
            ~ In header_default hs' /\
            emitted es =
              sig_sensor_data :: sig_wheel_state
                :: flat_map spec_emission hs')).
Proof.
  intros Hinj Hmin Hv.
  unfold runnable_packet. rewrite Hv. cbn [String.eqb Ascii.eqb Bool.eqb].
  cbn [set_decoder data_buffer kobuki_default pool].
  set (k2 := set_decoder (skipn 3 packet) [] (kobuki_default k) (pool k) _).
  destruct (dispatch_loop_total header_id (List.length (skipn 3 packet)) k2)
    as (k1 & b & Hloop & Hlen & Hsorted & Hrec).
  { apply le_n. }
  { split; constructor. }
  rewrite Hloop. cbn [bind fst snd].
  destruct (notify header_id k1) as [k3 es] eqn:Hn.
  destruct (notify_emitted header_id k1) as (He & Hs & _).
  rewrite Hn in He, Hs. cbn [fst snd] in He, Hs.
  assert (Hem : emitted (es ++ sendCommand k3) =
                signals_of_ids header_id (sig_index k3)).
  { rewrite emitted_app, emitted_sendCommand, app_nil_r, He, Hs.
    reflexivity. }
  exists k3, (es ++ sendCommand k3), b.
  split; [reflexivity|]. rewrite Hs.
  split; [exact Hsorted|]. split; [rewrite <- Hs; exact Hem|]. split.
  - intros Hin.
    destruct (sorted_least_first (header_id header_default) (sig_index k1))
      as [ids Hids]; [exact Hsorted | | exact Hin |].
    { rewrite Forall_forall in *. intros x Hx.
      destruct (Hrec x Hx) as [h ->]. apply Hmin. }
    exists ids. split; [exact Hids|]. split.
    + rewrite Hids in Hsorted. inversion Hsorted; assumption.
    + rewrite Hem, Hs, Hids. cbn [signals_of_ids flat_map].
      rewrite lookup_header_default. reflexivity.
  - intros stx1 stx2 len rs residue Hp Hres.
    destruct (dispatch_loop_records header_id rs k2
                (List.length (skipn 3 packet)) residue)
      as (k1' & fuel1 & Hloop' & Hb1 & _ & Hs1).
    { subst packet. reflexivity. }
    { apply le_n. }
    rewrite Hloop', dispatch_loop_done in Hloop by (rewrite Hb1; exact Hres).
    inversion Hloop. subst k1' b. clear Hloop.
    assert (Hseen : sig_index k1 = seen_ids header_id rs) by exact Hs1.
    split; [reflexivity|]. split; [exact Hseen|].
    destruct (headers_of_ids header_id Hinj (sig_index k1))
      as (hs & Hmap & Hsig & Hin).
    { intros id Hid. rewrite Forall_forall in Hrec. apply Hrec, Hid. }
    assert (Hhs : forall h, In h hs <-> In h (map fst rs)).
    { intros h. rewrite Hin, Hseen. split.
      - intros Hx. apply seen_ids_In_inv in Hx.
        destruct Hx as (r & Hr & Heq). apply Hinj in Heq. subst h.
        apply in_map, Hr.
      - intros Hx. apply in_map_iff in Hx. destruct Hx as (r & <- & Hr).
        apply seen_ids_fold_In, Hr. }
    assert (Hemit : emitted (es ++ sendCommand k3) = flat_map spec_emission hs)
      by (rewrite Hem, Hs; exact Hsig).
    exists hs. split; [symmetry; exact Hmap|]. split; [exact Hhs|].
    split; [exact Hemit|]. split.
    + intros h Hh. rewrite Hemit. apply in_flat_map. exists h.
      split; [apply Hhs, Hh|]. destruct h; simpl; auto.
    + intros Hd. apply Hhs in Hd.
      assert (Hd' : In (header_id header_default) (sig_index k1))
        by (rewrite <- Hmap; apply in_map, Hd).
      destruct (sorted_least_first (header_id header_default) (sig_index k1))
        as [ids Hids]; [exact Hsorted | | exact Hd' |].
      { rewrite Forall_forall in *. intros x Hx.
        destruct (Hrec x Hx) as [h ->]. apply Hmin. }
      destruct hs as [|h0 hs']; [contradiction|].
      rewrite Hids in Hmap. simpl in Hmap. inversion Hmap as [[H0 Hrest]].
      apply Hinj in H0. subst h0.
      exists hs'. split; [reflexivity|]. split.
      * intros Hdup. apply (in_map header_id) in Hdup. rewrite Hrest in Hdup.
        rewrite Hids in Hsorted. inversion Hsorted as [|? ? _ Hlt]; subst.
        rewrite Forall_forall in Hlt. specialize (Hlt _ Hdup). lia.
      * rewrite Hemit. reflexivity.
Qed.

Lemma signals_in_ascending_id_order_witness :
  170 :: 85 :: 20
    :: records_bytes spec_header_id
         [(header_dock_ir, [9]);
          (header_default,
           [1; 2; 3; 4; 5; 6; 7; 8; 9; 10; 11; 12; 13; 14; 15])]
       ++ [17] = packet_two_records /\
  exists k' es b,
    runnable_packet spec_header_id packet_two_records sample_driver =
      Some (k', es, b) /\
    StronglySorted Z.lt (sig_index k') /\
    emitted es = signals_of_ids spec_header_id (sig_index k') /\
    (In (spec_header_id header_default) (sig_index k') ->
     exists ids,
       sig_index k' = spec_header_id header_default :: ids /\
       Forall (fun id => spec_header_id header_default < id) ids /\
       emitted es =
         sig_sensor_data :: sig_wheel_state
           :: signals_of_ids spec_header_id ids) /\
    (forall stx1 stx2 len rs residue,
       packet_two_records =
         stx1 :: stx2 :: len :: records_bytes spec_header_id rs ++ residue ->
       (List.length residue <= 1)%nat ->
       b = false /\ sig_index k' = seen_ids spec_header_id rs /\
       exists hs,
         sig_index k' = map spec_header_id hs /\
         (forall h, In h hs <-> In h (map fst rs)) /\
         emitted es = flat_map spec_emission hs /\
         (forall h, In h (map fst rs) -> In (observer_signal h) (emitted es)) /\
         (In header_default (map fst rs) ->
          exists hs',
            hs = header_default :: hs' /\
            ~ In header_default hs' /\
            emitted es =
              sig_sensor_data :: sig_wheel_state
                :: flat_map spec_emission hs')).
Proof.
  split; [reflexivity|].
  exact (signals_in_ascending_id_order spec_header_id sample_driver
           packet_two_records spec_header_id_injective
           spec_header_id_default_least eq_refl).
Defined.

(** The second scenario of the dispatcher, evaluated: a [dock_ir]
    sub-record followed by a [default] one gives the seen set {0x01,
    0x03} and the emissions [sensor_data], [joint_state], [dock_ir], then
    the motion command. *)
Lemma two_records_scenario :
  option_map (fun r => (sig_index (fst (fst r)), snd (fst r), snd r))
    (runnable_packet spec_header_id packet_two_records sample_driver) =
  Some ([1; 3],
        [Emit sig_sensor_data; Emit sig_wheel_state; Emit sig_dock_ir;
         SerialWrite [170; 85; 5; 1; 0; 0; 0; 0; 4]],
        false).
Proof. reflexivity. Qed.

(** * Further properties of the driver *)

(** ** The checksum test of the packet finder *)

Lemma xor_bytes_lxor (cs : Z) (l : list Z) :
  0 <= cs < 256 -> Forall (fun b => 0 <= b < 256) l ->
  xor_bytes cs l = Z.lxor cs (xor_bytes 0 l).
Proof.
  intros Hcs Hl. revert cs Hcs.
  induction Hl as [|b l Hb Hl IH]; intros cs Hcs.
  - simpl. rewrite Z.lxor_0_r. reflexivity.
  - change (xor_bytes cs (b :: l))
      with (xor_bytes (to_uchar (Z.lxor cs b)) l).
    change (xor_bytes 0 (b :: l))
      with (xor_bytes (to_uchar (Z.lxor 0 b)) l).
    rewrite (IH (to_uchar (Z.lxor cs b))) by apply to_uchar_range.
    rewrite (IH (to_uchar (Z.lxor 0 b))) by apply to_uchar_range.
    rewrite !to_uchar_lxor by lia.
    rewrite Z.lxor_0_l, Z.lxor_assoc. reflexivity.
Qed.

Lemma xor_bytes_0_range (l : list Z) : 0 <= xor_bytes 0 l < 256.
Proof. apply xor_bytes_range. lia. Qed.

Lemma checkSum_true_iff (buffer : list Z) :
  checkSum buffer = true <-> xor_bytes 0 (skipn 2 buffer) = 0.
Proof.
  unfold checkSum.
  destruct (xor_bytes 0 (skipn 2 buffer) =? 0) eqn:E.
  - apply Z.eqb_eq in E. tauto.
  - apply Z.eqb_neq in E. split; [discriminate | contradiction].
Qed.

(** A buffer [STX STX | body | CKS] passes [PacketFinder::checkSum]
    exactly when its last byte is the XOR of the bytes of the body, that
    is of LEN and the payload. *)
Theorem checkSum_accepts_iff (stx1 stx2 cks : Z) (body : list Z) :
  0 <= cks < 256 ->
  (checkSum (stx1 :: stx2 :: body ++ [cks]) = true <->
   cks = xor_bytes 0 body).
Proof.
  intros Hc. rewrite checkSum_true_iff. cbn [skipn].
  rewrite xor_bytes_app. cbn [xor_bytes fold_left].
  fold (xor_bytes 0 body).
  pose proof (xor_bytes_0_range body) as Hx.
  rewrite to_uchar_lxor by assumption.
  split.
  - intros H. apply Z.lxor_eq in H. auto.
  - intros ->. apply Z.lxor_nilpotent.
Qed.

Lemma checkSum_accepts_iff_witness :
  0 <= 252 < 256 /\
  (checkSum [170; 85; 3; 1; 1; 255; 252] = true <->
   252 = xor_bytes 0 [3; 1; 1; 255]).
Proof.
  split; [lia|].
  refine (checkSum_accepts_iff 170 85 252 [3; 1; 1; 255] _). lia.
Defined.

(** A buffer that [checkSum] accepts is rejected as soon as one of its
    bytes from LEN on is replaced by a different byte. *)
Theorem checkSum_detects_changed_byte (pre post : list Z) (x y : Z) :
  (2 <= List.length pre)%nat ->
  Forall (fun b => 0 <= b < 256) (pre ++ x :: post) ->
  0 <= y < 256 -> x <> y ->
  checkSum (pre ++ x :: post) = true ->
  checkSum (pre ++ y :: post) = false.
Proof.
  intros Hlen Hall Hy Hxy Hok.
  destruct pre as [|s1 [|s2 pre]]; simpl in Hlen; try lia.
  apply Forall_app in Hall. destruct Hall as [Hpre Hxpost].
  inversion Hpre as [|? ? _ Hpre1]; subst.
  inversion Hpre1 as [|? ? _ Hpre2]; subst.
  inversion Hxpost as [|? ? Hx Hpost]; subst.
  apply checkSum_true_iff in Hok. cbn [app skipn] in Hok.
  destruct (checkSum ((s1 :: s2 :: pre) ++ y :: post)) eqn:E; [|reflexivity].
  apply checkSum_true_iff in E. cbn [app skipn] in E.
  rewrite xor_bytes_app in Hok, E.
  pose proof (xor_bytes_0_range pre) as Hp.
  cbn [xor_bytes fold_left] in Hok, E. fold (xor_bytes 0 pre) in Hok, E.
  fold (xor_bytes (to_uchar (Z.lxor (xor_bytes 0 pre) x)) post) in Hok.
  fold (xor_bytes (to_uchar (Z.lxor (xor_bytes 0 pre) y)) post) in E.
  rewrite xor_bytes_lxor in Hok, E by (try apply to_uchar_range; assumption).
  rewrite to_uchar_lxor in Hok, E by assumption.
  apply Z.lxor_eq in Hok, E. rewrite <- E in Hok.
  exfalso. apply Hxy.
  apply (f_equal (Z.lxor (xor_bytes 0 pre))) in Hok.
  rewrite <- !Z.lxor_assoc, Z.lxor_nilpotent, !Z.lxor_0_l in Hok.
  exact Hok.
Qed.

Lemma checkSum_detects_changed_byte_witness :
  checkSum ([170; 85; 3; 1] ++ 1 :: [255; 252]) = true /\
  checkSum ([170; 85; 3; 1] ++ 9 :: [255; 252]) = false.
Proof.
  split; [reflexivity|].
  refine (checkSum_detects_changed_byte [170; 85; 3; 1] [255; 252] 1 9
            _ _ _ _ eq_refl).
  - simpl. lia.
  - repeat constructor; lia.
  - lia.
  - intros H. discriminate H.
Defined.

(** A buffer of at most two bytes, which has no byte from LEN on, passes
    [checkSum]: the empty XOR is 0. *)
Theorem checkSum_short_buffer (buffer : list Z) :
  (List.length buffer <= 2)%nat -> checkSum buffer = true.
Proof.
  intros H. apply checkSum_true_iff.
  destruct buffer as [|a [|b [|c l]]]; simpl in *; try reflexivity; lia.
Qed.

Lemma checkSum_short_buffer_witness :
  checkSum [] = true /\ checkSum [170; 85] = true.
Proof.
  split.
  - apply (checkSum_short_buffer []). simpl. lia.
  - apply (checkSum_short_buffer [170; 85]). simpl. lia.
Defined.

(** ** The frame of the motion command *)

Lemma to_short_mod (z : Z) :
  -32768 <= z <= 32767 -> to_short (z mod 65536) = z.
Proof.
  intros Hz. unfold to_short. rewrite Z.mod_mod by lia.
  destruct (Z_lt_le_dec z 0) as [Hneg | Hpos].
  - replace (z mod 65536) with (z + 65536).
    + destruct (z + 65536 <? 32768) eqn:E;
        [apply Z.ltb_lt in E | apply Z.ltb_ge in E]; lia.
    + apply Z.mod_unique with (q := -1); lia.
  - rewrite Z.mod_small by lia.
    destruct (z <? 32768) eqn:E;
      [apply Z.ltb_lt in E | apply Z.ltb_ge in E]; lia.
Qed.

(** The frame of [sendCommand()] has nine bytes, all of them in
    [0, 255], and the stored speed and radius are read back from it:
    bytes 4-5 and bytes 6-7, taken little-endian and as signed 16-bit
    integers, are the speed and the radius. *)
Theorem command_frame_decodes (k : Kobuki) :
  -32768 <= speed k <= 32767 -> -32768 <= radius k <= 32767 ->
  let f := command_frame k in
  List.length f = 9%nat /\
  Forall (fun b => 0 <= b < 256) f /\
  firstn 4 f = [170; 85; 5; 1] /\
  to_short (nth 4 f 0 + 256 * nth 5 f 0) = speed k /\
  to_short (nth 6 f 0 + 256 * nth 7 f 0) = radius k.
Proof.
  intros Hs Hr f. subst f.
  destruct (command_frame_shape k)
    as (s0 & s1 & r0 & r1 & -> & Hsp & Hra & H0 & H1 & H2 & H3).
  cbn [List.length firstn nth].
  split; [reflexivity|]. split.
  - pose proof (xor_bytes_0_range [5; 1; s0; s1; r0]).
    repeat constructor; lia.
  - split; [reflexivity|].
    rewrite Hsp, Hra. split; apply to_short_mod; assumption.
Qed.

Lemma command_frame_decodes_witness :
  List.length (command_frame (set_radius_speed (-300) 1223 sample_driver)) =
    9%nat /\
  Forall (fun b => 0 <= b < 256)
    (command_frame (set_radius_speed (-300) 1223 sample_driver)) /\
  firstn 4 (command_frame (set_radius_speed (-300) 1223 sample_driver)) =
    [170; 85; 5; 1] /\
  to_short
    (nth 4 (command_frame (set_radius_speed (-300) 1223 sample_driver)) 0
     + 256
       * nth 5 (command_frame (set_radius_speed (-300) 1223 sample_driver)) 0)
  = 1223 /\
  to_short
    (nth 6 (command_frame (set_radius_speed (-300) 1223 sample_driver)) 0
     + 256
       * nth 7 (command_frame (set_radius_speed (-300) 1223 sample_driver)) 0)
  = -300.
Proof.
  refine (command_frame_decodes (set_radius_speed (-300) 1223 sample_driver)
            _ _); simpl; lia.
Defined.

Lemma command_frame_checkSum_range (k : Kobuki) :
  -32768 <= radius k <= 32767 ->
  (checkSum (command_frame k) = true <-> 0 <= radius k <= 255).
Proof.
  intros Hr. rewrite command_frame_checkSum, Z.eqb_eq.
  unfold union_sint16_byte1. rewrite Z.shiftr_div_pow2 by lia.
  change (2 ^ 8) with 256.
  destruct (Z_lt_le_dec (radius k) 0) as [Hneg | Hpos].
  - replace (radius k mod 65536) with (radius k + 65536)
      by (apply Z.mod_unique with (q := -1); lia).
    split; [|lia]. intros H.
    assert (128 <= (radius k + 65536) / 256)
      by (apply Z.div_le_lower_bound; lia).
    lia.
  - rewrite Z.mod_small by lia. split.
    + intros H. pose proof (Z.div_mod (radius k) 256 ltac:(lia)).
      pose proof (Z.mod_pos_bound (radius k) 256 ltac:(lia)). lia.
    + intros H. apply Z.div_small. lia.
Qed.

(** For a radius that fits a signed 16-bit integer, the frame of
    [sendCommand()] passes the checksum test of the packet finder exactly
    when the radius lies in [0, 255]: every negative radius and every
    radius of 256 mm or more gives a frame the test rejects. *)
Theorem command_frame_accepted_iff (k : Kobuki) :
  -32768 <= radius k <= 32767 ->
  (checkSum (command_frame k) = true <-> 0 <= radius k <= 255).
Proof. apply command_frame_checkSum_range. Qed.

Lemma command_frame_accepted_iff_witness :
  (checkSum (command_frame (set_radius_speed 255 74 sample_driver)) = true
   <-> 0 <= 255 <= 255) /\
  (checkSum (command_frame (set_radius_speed 256 74 sample_driver)) = true
   <-> 0 <= 256 <= 255).
Proof.
  split.
  - refine (command_frame_accepted_iff
              (set_radius_speed 255 74 sample_driver) _). simpl. lia.
  - refine (command_frame_accepted_iff
              (set_radius_speed 256 74 sample_driver) _). simpl. lia.
Defined.

(** ** More on the odometry *)

Lemma to_short_congruent (x z : Z) :
  -32768 <= z <= 32767 -> (z - x) mod 65536 = 0 -> to_short x = z.
Proof.
  intros Hz Hc. rewrite <- (to_short_mod z Hz).
  unfold to_short. rewrite !Z.mod_mod by lia.
  replace (x mod 65536) with (z mod 65536); [reflexivity|].
  apply Z.mod_divide in Hc; [|lia]. destruct Hc as [q Hq].
  replace z with (x + q * 65536) by lia. apply Z.mod_add. lia.
Qed.

Lemma diff_ticks_to_short (curr last : Z) :
  diff_ticks curr last = to_short (curr - last).
Proof.
  unfold diff_ticks. change 65535 with (Z.ones 16).
  rewrite Z.land_ones by lia. unfold to_short.
  change (2 ^ 16) with 65536. rewrite Z.mod_mod by lia. reflexivity.
Qed.

Lemma diff_ticks_range (curr last : Z) :
  -32768 <= diff_ticks curr last <= 32767.
Proof. rewrite diff_ticks_signed_wrap16. apply signed_wrap16_range. Qed.

Lemma diff_ticks_congruent (curr last : Z) :
  (diff_ticks curr last - (curr - last)) mod 65536 = 0.
Proof. rewrite diff_ticks_signed_wrap16. apply signed_wrap16_congruent. Qed.

(** Wrap safety: when a wheel has turned by [d] ticks since the previous
    sample [p], forwards or backwards, and the 16-bit counter has wrapped
    around any number of times on the way, the delta computed from the
    two samples is [d] itself, as long as [d] fits a signed 16-bit
    integer. *)
Theorem diff_ticks_recovers_displacement (p d : Z) :
  -32768 <= d <= 32767 -> diff_ticks ((p + d) mod 65536) p = d.
Proof.
  intros Hd. rewrite diff_ticks_to_short.
  apply to_short_congruent; [exact Hd|].
  pose proof (Z.div_mod (p + d) 65536 ltac:(lia)) as H.
  replace (d - ((p + d) mod 65536 - p))
    with (((p + d) / 65536) * 65536) by lia.
  apply Z.mod_mul. lia.
Qed.

Lemma diff_ticks_recovers_displacement_witness :
  diff_ticks ((65530 + 11) mod 65536) 65530 = 11 /\
  diff_ticks ((3 + -10) mod 65536) 3 = -10.
Proof.
  split.
  - apply (diff_ticks_recovers_displacement 65530 11). lia.
  - apply (diff_ticks_recovers_displacement 3 (-10)). lia.
Defined.

(** Deltas add up: over three successive samples [a], [b], [c] the delta
    from [a] to [c] is the sum of the two successive deltas, whenever
    that sum fits a signed 16-bit integer. *)
Theorem diff_ticks_compose (a b c : Z) :
  -32768 <= diff_ticks b a + diff_ticks c b <= 32767 ->
  diff_ticks c a = diff_ticks b a + diff_ticks c b.
Proof.
  intros Hsum. rewrite (diff_ticks_to_short c a).
  apply to_short_congruent; [exact Hsum|].
  pose proof (diff_ticks_congruent b a) as H1.
  pose proof (diff_ticks_congruent c b) as H2.
  apply Z.mod_divide in H1; [|lia]. apply Z.mod_divide in H2; [|lia].
  destruct H1 as [q1 H1]. destruct H2 as [q2 H2].
  replace (diff_ticks b a + diff_ticks c b - (c - a))
    with ((q1 + q2) * 65536) by lia.
  apply Z.mod_mul. lia.
Qed.

Lemma diff_ticks_compose_witness :
  diff_ticks 7 65500 = diff_ticks 65530 65500 + diff_ticks 7 65530.
Proof.
  apply (diff_ticks_compose 65500 65530 7). vm_compute. split; discriminate.
Defined.

(** The time difference from two distinct 16-bit timestamps is never
    zero, so the wheel velocities are never a division by a zero [dt];
    but it is negative when the device clock has advanced by 32768 ms or
    more since the last update. *)
Theorem timestamp_difference_nonzero (k : Kobuki) :
  let ts := time_stamp (kobuki_default k) in
  0 <= ts < 65536 -> 0 <= last_timestamp k < 65536 ->
  ts <> last_timestamp k ->
  exists n,
    last_diff_time (fst (updateOdometry k)) =
      (double_of_int n / 1000)%float /\
    n <> 0 /\ -32768 <= n <= 32767 /\
    (n < 0 <-> 32768 <= (ts - last_timestamp k) mod 65536).
Proof.
  intros ts Hts Hlast Hne.
  exists (diff_ticks ts (last_timestamp k)).
  split.
  { unfold updateOdometry. cbn [fst set_odometry last_diff_time].
    fold ts. apply Z.eqb_neq in Hne. rewrite Hne. reflexivity. }
  rewrite diff_ticks_signed_wrap16. unfold signed_wrap16, as_signed16.
  change (2 ^ 16) with 65536. change (2 ^ 15) with 32768.
  pose proof (Z.mod_pos_bound (ts - last_timestamp k) 65536 ltac:(lia)) as Hm.
  assert (Hnz : (ts - last_timestamp k) mod 65536 <> 0).
  { intros H0. apply Z.mod_divide in H0; [|lia]. destruct H0 as [q Hq].
    assert (q = 0) by nia. lia. }
  destruct ((ts - last_timestamp k) mod 65536 <? 32768) eqn:E;
    [apply Z.ltb_lt in E | apply Z.ltb_ge in E]; repeat split; lia.
Qed.

Lemma timestamp_difference_nonzero_witness :
  exists n,
    last_diff_time (fst (updateOdometry wrapped_driver)) =
      (double_of_int n / 1000)%float /\
    n <> 0 /\ -32768 <= n <= 32767 /\
    (n < 0 <->
     32768 <=
       (time_stamp (kobuki_default wrapped_driver)
        - last_timestamp wrapped_driver) mod 65536).
Proof.
  refine (timestamp_difference_nonzero wrapped_driver _ _ _).
  - simpl. lia.
  - simpl. lia.
  - intros H. discriminate H.
Defined.

Lemma diff_ticks_same (c : Z) : diff_ticks c c = 0.
Proof.
  rewrite diff_ticks_to_short, Z.sub_diag. reflexivity.
Qed.

Lemma updateOdometry_keeps_sample (k : Kobuki) :
  let k1 := fst (updateOdometry k) in
  kobuki_default k1 = kobuki_default k /\
  init_l k1 = true /\ init_r k1 = true /\
  last_tick_left k1 = left_encoder (kobuki_default k) /\
  last_tick_right k1 = right_encoder (kobuki_default k) /\
  last_timestamp k1 = time_stamp (kobuki_default k) /\
  tick_to_rad k1 = tick_to_rad k /\ tick_to_mm k1 = tick_to_mm k /\
  kinematics k1 = kinematics k.
Proof.
  unfold updateOdometry.
  cbn [fst set_odometry kobuki_default init_l init_r last_tick_left
       last_tick_right last_timestamp tick_to_rad tick_to_mm kinematics].
  repeat split.
  destruct (time_stamp (kobuki_default k) =? last_timestamp k) eqn:E;
    cbn [negb]; [|reflexivity].
  apply Z.eqb_eq in E. symmetry. exact E.
Qed.

(** Calling [updateOdometry] again before a new sensor record has
    arrived measures nothing: both tick deltas are 0, both reported
    wheel velocities are 0, and the ticks, the timestamp, the time
    difference and the stored velocities stay as the first call left
    them. The pose rates are still the pose update divided by that
    earlier time difference. *)
Theorem updateOdometry_again_is_still (k : Kobuki) :
  let k1 := fst (updateOdometry k) in
  let k2 := fst (updateOdometry k1) in
  let o2 := snd (updateOdometry k1) in
  diff_ticks (left_encoder (kobuki_default k1)) (last_tick_left k1) = 0 /\
  diff_ticks (right_encoder (kobuki_default k1)) (last_tick_right k1) = 0 /\
  wheel_left_velocity o2 = 0%float /\ wheel_right_velocity o2 = 0%float /\
  last_rad_left k2 = (last_rad_left k1 + tick_to_rad k * 0)%float /\
  last_rad_right k2 = (last_rad_right k1 + tick_to_rad k * 0)%float /\
  wheel_left_position o2 = last_rad_left k2 /\
  wheel_right_position o2 = last_rad_right k2 /\
  last_tick_left k2 = last_tick_left k1 /\
  last_tick_right k2 = last_tick_right k1 /\
  last_timestamp k2 = last_timestamp k1 /\
  last_diff_time k2 = last_diff_time k1 /\
  last_velocity_left k2 = last_velocity_left k1 /\
  last_velocity_right k2 = last_velocity_right k1 /\
  pose_update o2 = kinematics k (tick_to_rad k * 0) (tick_to_rad k * 0) /\
  pose_update_rates o2 =
    mkPose2D (pose_x (pose_update o2) / last_diff_time k1)
      (pose_y (pose_update o2) / last_diff_time k1)
      (pose_heading (pose_update o2) / last_diff_time k1).
Proof.
  intros k1 k2 o2.
  destruct (updateOdometry_keeps_sample k)
    as (Hd & Hl & Hr & Htl & Htr & Hts & Hrad & _ & Hkin).
  fold k1 in Hd, Hl, Hr, Htl, Htr, Hts, Hrad, Hkin.
  assert (Hdl : diff_ticks (left_encoder (kobuki_default k1))
                  (last_tick_left k1) = 0)
    by (rewrite Htl, Hd; apply diff_ticks_same).
  assert (Hdr : diff_ticks (right_encoder (kobuki_default k1))
                  (last_tick_right k1) = 0)
    by (rewrite Htr, Hd; apply diff_ticks_same).
  assert (Hsame : (time_stamp (kobuki_default k1) =? last_timestamp k1) = true)
    by (rewrite Hts, Hd; apply Z.eqb_refl).
  split; [exact Hdl|]. split; [exact Hdr|].
  subst k2 o2.
  unfold updateOdometry at 1 2 3 4 5 6 7 8 9 10 11 12 13 14 15 16 17 18 19.
  cbn [fst snd set_odometry last_rad_left last_rad_right
       wheel_left_position wheel_right_position wheel_left_velocity
       wheel_right_velocity last_diff_time last_velocity_left
       last_velocity_right last_timestamp last_tick_left last_tick_right
       pose_update pose_update_rates pose_x pose_y pose_heading].
  rewrite Hl, Hr, Hdl, Hdr, Hsame, Hrad, Hkin. cbn [negb].
  change (double_of_int 0) with 0%float.
  rewrite Htl, Htr, Hd. repeat split.
Qed.

(** ** More on the handling of a packet *)

Lemma set_decoder_same (k : Kobuki) :
  set_decoder (data_buffer k) (sig_index k) (kobuki_default k) (pool k) k = k.
Proof. destruct k. reflexivity. Qed.

Lemma serial_writes_app (es1 es2 : list Effect) :
  serial_writes (es1 ++ es2) = serial_writes es1 ++ serial_writes es2.
Proof. unfold serial_writes. apply flat_map_app. Qed.

Lemma serial_writes_map_Emit (l : list Signal) :
  serial_writes (map Emit l) = [].
Proof. induction l as [|s l IH]; simpl; auto. Qed.

Lemma signals_of_NoDup (h : Header) : NoDup (signals_of h).
Proof.
  destruct h; simpl; repeat constructor; simpl; intuition discriminate.
Qed.

Lemma signals_of_header (h : Header) (s : Signal) :
  In s (signals_of h) -> signal_header s = h.
Proof.
  destruct h; simpl; intros H;
    repeat (destruct H as [<- | H]; [reflexivity|]); contradiction.
Qed.

Section PacketFacts.

Variable header_id : Header -> Z.

(** The dispatch loop writes no member of the driver other than those of
    the decoder. *)
Lemma dispatch_loop_decoder_only (fuel : nat) :
  forall k k' b,
    dispatch_loop header_id fuel k = Some (k', b) ->
    exists buf idx def pl, k' = set_decoder buf idx def pl k.
Proof.
  induction fuel as [|fuel IH]; intros k k' b H; simpl in H.
  - destruct (1 <? List.length (data_buffer k))%nat; [discriminate|].
    inversion H. subst. eexists _, _, _, _. symmetry.
    apply set_decoder_same.
  - destruct (1 <? List.length (data_buffer k))%nat.
    + destruct (lookup_header header_id (nth 0 (data_buffer k) 0)) as [h|].
      * apply IH in H. destruct H as (buf & idx & def & pl & ->).
        eexists _, _, _, _. reflexivity.
      * inversion H. eexists _, _, _, _. reflexivity.
    + inversion H. subst. eexists _, _, _, _. symmetry.
      apply set_decoder_same.
Qed.

Lemma notify_decoder_only (ids : list Z) :
  forall acc,
    exists buf,
      fst (fold_left (notify_one header_id) ids acc) =
        set_decoder buf (sig_index (fst acc)) (kobuki_default (fst acc))
          (pool (fst acc)) (fst acc) /\
      (List.length buf <= List.length (data_buffer (fst acc)))%nat.
Proof.
  induction ids as [|id ids IH]; intros acc; simpl.
  - exists (data_buffer (fst acc)). split; [|apply le_n].
    symmetry. apply set_decoder_same.
  - destruct (IH (notify_one header_id acc id)) as (buf & -> & Hlen).
    exists buf. unfold notify_one in *.
    destruct (lookup_header header_id id); simpl in *.
    + auto.
    + split; [reflexivity | lia].
Qed.

Lemma signals_of_ids_In (ids : list Z) (s : Signal) :
  In s (signals_of_ids header_id ids) ->
  In (header_id (signal_header s)) ids.
Proof.
  unfold signals_of_ids. rewrite in_flat_map. intros (id & Hid & Hs).
  destruct (lookup_header header_id id) as [h|] eqn:E; [|contradiction].
  apply signals_of_header in Hs. subst h.
  apply lookup_header_Some in E. rewrite <- E. exact Hid.
Qed.

Lemma signals_of_ids_NoDup (ids : list Z) :
  StronglySorted Z.lt ids -> NoDup (signals_of_ids header_id ids).
Proof.
  induction 1 as [|id ids Hs IH Hlt]; simpl; [constructor|].
  apply NoDup_app; [| exact IH |].
  - destruct (lookup_header header_id id); [apply signals_of_NoDup|constructor].
  - intros s Hs1 Hs2.
    destruct (lookup_header header_id id) as [h|] eqn:E; [|contradiction].
    apply signals_of_header in Hs1. apply lookup_header_Some in E.
    apply signals_of_ids_In in Hs2. rewrite Hs1, <- E in Hs2.
    rewrite Forall_forall in Hlt. specialize (Hlt id Hs2). lia.
Qed.

End PacketFacts.

(** Whatever a packet holds and whatever the protocol version, handling
    it writes to the serial port exactly once, and what is written is the
    frame of the motion command stored before the packet came. Handling a
    packet assigns no member of the driver other than the buffer, the set
    of seen ids and the stored records; under protocol "2.0" it leaves at
    most one byte in the buffer. *)
Theorem runnable_packet_sends_one_command (header_id : Header -> Z)
    (k : Kobuki) (packet : list Z) :
  exists k' es b,
    runnable_packet header_id packet k = Some (k', es, b) /\
    serial_writes es = [command_frame k] /\
    (exists buf idx def pl, k' = set_decoder buf idx def pl k) /\
    (protocol_version k = "2.0"%string ->
     (List.length (data_buffer k') <= 1)%nat).
Proof.
  unfold runnable_packet.
  destruct (String.eqb (protocol_version k) "2.0") eqn:Hv.
  - cbn [set_decoder data_buffer kobuki_default pool].
    set (k2 := set_decoder (skipn 3 packet) [] (kobuki_default k) (pool k) _).
    destruct (dispatch_loop_total header_id (List.length (skipn 3 packet)) k2)
      as (k1 & b & Hloop & Hlen & _).
    { apply le_n. }
    { split; constructor. }
    rewrite Hloop. cbn [bind fst snd].
    destruct (dispatch_loop_decoder_only header_id _ _ _ _ Hloop)
      as (buf1 & idx1 & def1 & pl1 & Hk1).
    destruct (notify header_id k1) as [k3 es] eqn:Hn.
    unfold notify in Hn.
    destruct (notify_fold header_id (sig_index k1) (k1, [])) as (He & _ & _).
    destruct (notify_decoder_only header_id (sig_index k1) (k1, []))
      as (buf3 & Hk3 & Hlen3).
    rewrite Hn in He, Hk3. cbn [fst snd] in He, Hk3, Hlen3.
    exists k3, (es ++ sendCommand k3), b.
    split; [reflexivity|]. split; [|split].
    + rewrite serial_writes_app, He. cbn [app].
      rewrite serial_writes_map_Emit, Hk3, Hk1. reflexivity.
    + exists buf3, (sig_index k1), (kobuki_default k1), (pool k1).
      rewrite Hk3, Hk1. reflexivity.
    + intros _. rewrite Hk3. cbn [set_decoder data_buffer]. lia.
  - eexists _, _, false. split; [reflexivity|]. split; [reflexivity|].
    split; [eexists _, _, _, _; reflexivity|].
    intros Hv2. rewrite Hv2 in Hv. discriminate Hv.
Qed.

Lemma runnable_packet_sends_one_command_witness :
  exists k' es b,
    runnable_packet spec_header_id packet_with_unknown_header
      (set_radius_speed 300 100 sample_driver) = Some (k', es, b) /\
    serial_writes es =
      [command_frame (set_radius_speed 300 100 sample_driver)] /\
    (exists buf idx def pl,
       k' = set_decoder buf idx def pl
              (set_radius_speed 300 100 sample_driver)) /\
    (protocol_version (set_radius_speed 300 100 sample_driver) = "2.0"%string
     -> (List.length (data_buffer k') <= 1)%nat).
Proof.
  exact (runnable_packet_sends_one_command spec_header_id
           (set_radius_speed 300 100 sample_driver)
           packet_with_unknown_header).
Defined.

(** No observer signal is emitted twice for one packet, however often a
    header id occurs in its payload. *)
Theorem each_signal_at_most_once (header_id : Header -> Z) (k : Kobuki)
    (packet : list Z) :
  exists k' es b,
    runnable_packet header_id packet k = Some (k', es, b) /\
    NoDup (emitted es).
Proof.
  unfold runnable_packet.
  destruct (String.eqb (protocol_version k) "2.0") eqn:Hv.
  - cbn [set_decoder data_buffer kobuki_default pool].
    set (k2 := set_decoder (skipn 3 packet) [] (kobuki_default k) (pool k) _).
    destruct (dispatch_loop_total header_id (List.length (skipn 3 packet)) k2)
      as (k1 & b & Hloop & _ & Hsorted & _).
    { apply le_n. }
    { split; constructor. }
    rewrite Hloop. cbn [bind fst snd].
    destruct (notify header_id k1) as [k3 es] eqn:Hn.
    destruct (notify_emitted header_id k1) as (He & _ & _).
    rewrite Hn in He. cbn [snd] in He.
    exists k3, (es ++ sendCommand k3), b. split; [reflexivity|].
    rewrite emitted_app, emitted_sendCommand, app_nil_r, He.
    apply signals_of_ids_NoDup, Hsorted.
  - eexists _, _, false. split; [reflexivity|]. constructor.
Qed.

(** Under any protocol version other than "2.0" a packet is only
    drained: its first three bytes are dropped, nothing is decoded, the
    ids left in [sig_index] by earlier packets stay and are not notified,
    the motion command is still sent, and [getSensorData] leaves the
    caller's record as it is. *)
Theorem other_protocol_only_drains (header_id : Header -> Z) (k : Kobuki)
    (packet : list Z) :
  protocol_version k <> "2.0"%string ->
  exists k',
    runnable_packet header_id packet k =
      Some (k', [SerialWrite (command_frame k)], false) /\
    data_buffer k' = skipn 3 packet /\
    sig_index k' = sig_index k /\
    kobuki_default k' = kobuki_default k /\
    (forall h, pool k' h = pool k h) /\
    (forall sensor_data, getSensorData k' sensor_data = sensor_data).
Proof.
  intros Hv. apply String.eqb_neq in Hv.
  unfold runnable_packet. rewrite Hv.
  eexists. split; [reflexivity|].
  repeat split. intros sensor_data. unfold getSensorData.
  cbn [set_decoder protocol_version]. rewrite Hv. reflexivity.
Qed.

Lemma other_protocol_only_drains_witness :
  protocol_version legacy_driver <> "2.0"%string /\
  exists k',
    runnable_packet spec_header_id packet_two_records legacy_driver =
      Some (k', [SerialWrite (command_frame legacy_driver)], false) /\
    data_buffer k' = skipn 3 packet_two_records /\
    sig_index k' = sig_index legacy_driver /\
    kobuki_default k' = kobuki_default legacy_driver /\
    (forall h, pool k' h = pool legacy_driver h) /\
    (forall sensor_data, getSensorData k' sensor_data = sensor_data).
Proof.
  assert (H : protocol_version legacy_driver <> "2.0"%string)
    by (intros E; discriminate E).
  split; [exact H|].
  exact (other_protocol_only_drains spec_header_id legacy_driver
           packet_two_records H).
Defined.

(** ** The generic command encoder *)





(** When the resized buffer is empty and the serialiser appends the
    bytes [rec] of the record, fewer than 256 of them, the frame written
    by [sendCommand(data)] is AA 55 LEN [rec] CKS with LEN the number of
    bytes of [rec] and CKS the XOR of LEN and [rec]. A base-control
    command also replaces the stored speed and radius, so that the next
    [sendCommand()] carries them; any other command leaves the driver as
    it is. *)
Theorem sendCommand_data_frame
    (serialise : Command.t -> list Z -> list Z) (commandBaseControl : Z)
    (data : Command.t) (c : Commander) (rec : list Z) :
  serialise data [170; 85; 0] = [170; 85; 0] ++ rec ->
  (List.length rec < 256)%nat ->
  exists c',
    sendCommand_data [] serialise commandBaseControl data c =
      Some (c',
            [SerialWrite
               (170 :: 85 :: Z.of_nat (List.length rec)
                  :: rec ++ [xor_bytes 0 (Z.of_nat (List.length rec) :: rec)])])
    /\
    (Command.command data = commandBaseControl ->
     speed (driver c') = Command.speed data /\
     radius (driver c') = Command.radius data /\
     sendCommand (driver c') =
       [SerialWrite
          (command_frame
             (set_radius_speed (Command.radius data) (Command.speed data)
                (driver c)))]) /\
    (Command.command data <> commandBaseControl -> driver c' = driver c).
Proof.
  intros Hser Hlen. unfold sendCommand_data. cbn [app].
  rewrite Hser. cbn [app List.length store_at_2 bind skipn].
  replace (to_uchar (Z.of_nat (S (S (S (List.length rec)))) - 3))
    with (Z.of_nat (List.length rec)).
  2:{ symmetry. replace (Z.of_nat (S (S (S (List.length rec)))) - 3)
        with (Z.of_nat (List.length rec)) by lia.
      apply to_uchar_small. lia. }
  eexists. split; [reflexivity|]. cbn [driver]. split.
  - intros Hc. apply Z.eqb_eq in Hc. rewrite Hc. repeat split.
  - intros Hc. apply Z.eqb_neq in Hc. rewrite Hc. reflexivity.
Qed.

Lemma sendCommand_data_frame_witness :
  exists c',
    sendCommand_data [] sample_serialise 1 sample_command
      (mkCommander sample_driver (Command.mk 0 0 0) []) =
      Some (c',
            [SerialWrite
               (170 :: 85 :: Z.of_nat (List.length [1; 4; 100; 0; 44; 1])
                  :: [1; 4; 100; 0; 44; 1]
                     ++ [xor_bytes 0
                           (Z.of_nat (List.length [1; 4; 100; 0; 44; 1])
                              :: [1; 4; 100; 0; 44; 1])])]) /\
    (Command.command sample_command = 1 ->
     speed (driver c') = Command.speed sample_command /\
     radius (driver c') = Command.radius sample_command /\
     sendCommand (driver c') =
       [SerialWrite
          (command_frame
             (set_radius_speed (Command.radius sample_command)
                (Command.speed sample_command) sample_driver))]) /\
    (Command.command sample_command <> 1 -> driver c' = sample_driver).
Proof.
  refine (sendCommand_data_frame sample_serialise 1 sample_command
            (mkCommander sample_driver (Command.mk 0 0 0) [])
            [1; 4; 100; 0; 44; 1] eq_refl _).
  simpl. lia.
Defined.

(** ** Driving straight, stopping and starting *)

Lemma truncate_ext (x y : double) :
  Prim2SF x = Prim2SF y -> truncate x = truncate y.
Proof. unfold truncate. intros ->. reflexivity. Qed.

Lemma truncate_zero (x : double) (s : bool) :
  Prim2SF x = S754_zero s -> truncate x = Some 0.
Proof. unfold truncate. intros ->. reflexivity. Qed.

(** A [double] equal to 0.0 is one of the two zeros. *)
Lemma eqb_zero_inv (w : double) :
  (w =? 0)%float = true -> exists s, Prim2SF w = S754_zero s.
Proof.
  rewrite FloatAxioms.eqb_spec, Prim2SF_zero. unfold SFeqb.
  destruct (Prim2SF w) as [s | s | | s m e]; simpl; try discriminate.
  - eauto.
  - destruct s; discriminate.
  - destruct s; discriminate.
Qed.

Lemma SFltb_irrefl (x : spec_float) : SFltb x x = false.
Proof.
  unfold SFltb. destruct x as [s | s | | s m e]; simpl; try reflexivity.
  - destruct s; reflexivity.
  - destruct s; rewrite Z.compare_refl, Pos.compare_cont_refl; reflexivity.
Qed.

(** [bias * wz / 2] is a zero when [wz] is one and [bias] is finite. *)
Lemma scaled_zero_halved (b w : double) (s : bool) :
  finite_double b = true -> Prim2SF w = S754_zero s ->
  exists s', Prim2SF (b * w / 2) = S754_zero s'.
Proof.
  unfold finite_double. intros Hb Hw.
  rewrite FloatAxioms.div_spec, FloatAxioms.mul_spec, Hw.
  destruct (Prim2SF b) as [sb | sb | | sb m e]; try discriminate;
    eexists; cbv; reflexivity.
Qed.

(** With [wz == 0] the faster wheel runs at [vx]: the two candidates of
    [std::max] are [vx] plus and minus a zero. *)
Lemma command_speed_straight (b vx wz : double) :
  (wz =? 0)%float = true -> finite_double b = true ->
  command_speed b vx wz = double_to_short (1000 * vx).
Proof.
  intros Hw Hb. destruct (eqb_zero_inv wz Hw) as [s Hs].
  destruct (scaled_zero_halved b wz s Hb Hs) as [s' Ht].
  unfold command_speed, double_to_short.
  set (t := (b * wz / 2)%float) in *.
  assert (Ha : Prim2SF (vx + t) = SF64add (Prim2SF vx) (S754_zero s'))
    by (rewrite FloatAxioms.add_spec, Ht; reflexivity).
  assert (Hs' : Prim2SF (vx - t) = SF64sub (Prim2SF vx) (S754_zero s'))
    by (rewrite FloatAxioms.sub_spec, Ht; reflexivity).
  assert (Hm : Prim2SF (std_max (vx + t) (vx - t)) = Prim2SF vx \/
               exists s1 s2,
                 Prim2SF (std_max (vx + t) (vx - t)) = S754_zero s1 /\
                 Prim2SF vx = S754_zero s2).
  { unfold std_max. rewrite FloatAxioms.ltb_spec, Ha, Hs'.
    destruct (Prim2SF vx) as [sv | sv | | sv m e] eqn:Ev.
    - right. destruct (SFltb _ _); [rewrite Hs' | rewrite Ha]; rewrite ?Ev;
        destruct sv, s'; simpl; eauto.
    - left. simpl. rewrite SFltb_irrefl, Ha, ?Ev. reflexivity.
    - left. simpl. rewrite Ha, ?Ev. reflexivity.
    - left. simpl. rewrite SFltb_irrefl, Ha, ?Ev. reflexivity. }
  replace (truncate (1000 * std_max (vx + t) (vx - t)))
    with (truncate (1000 * vx)); [reflexivity|].
  destruct Hm as [Hm | (s1 & s2 & Hm & Hv)].
  - apply truncate_ext. rewrite !FloatAxioms.mul_spec, Hm. reflexivity.
  - rewrite (truncate_zero (1000 * vx) (xorb false s2)),
      (truncate_zero (1000 * std_max (vx + t) (vx - t)) (xorb false s1)).
    + reflexivity.
    + rewrite FloatAxioms.mul_spec, Hm. reflexivity.
    + rewrite FloatAxioms.mul_spec, Hv. reflexivity.
Qed.

(** Driving straight: for [wz == 0] and a finite wheelbase,
    [setCommand(vx, wz)] stores radius 0 and the speed 1000 * vx
    truncated toward zero, and is defined exactly when that value fits a
    signed 16-bit integer. *)
Theorem straight_line_command (vx wz : double) (k : Kobuki) :
  (wz =? 0)%float = true -> finite_double (bias k) = true ->
  setCommand vx wz k =
    option_map (fun s => set_radius_speed 0 s k)
      (double_to_short (1000 * vx)).
Proof.
  intros Hw Hb. unfold setCommand, command_radius.
  rewrite Hw, (command_speed_straight _ _ _ Hw Hb). cbn [bind].
  destruct (double_to_short (1000 * vx)); reflexivity.
Qed.

Lemma straight_line_command_witness :
  setCommand 0.25 0 sample_driver =
    option_map (fun s => set_radius_speed 0 s sample_driver)
      (double_to_short (1000 * 0.25)) /\
  double_to_short (1000 * 0.25) = Some 250 /\
  setCommand 40 (-0) sample_driver =
    option_map (fun s => set_radius_speed 0 s sample_driver)
      (double_to_short (1000 * 40)) /\
  double_to_short (1000 * 40) = None.
Proof.
  split; [|split; [reflexivity|split; [|reflexivity]]].
  - exact (straight_line_command 0.25 0 sample_driver eq_refl eq_refl).
  - exact (straight_line_command 40 (-0) sample_driver eq_refl eq_refl).
Defined.

(** [stop()] on a driver with a finite wheelbase: the zero-motion frame
    AA 55 05 01 00 00 00 00 04 is written, and it passes the checksum
    test of the packet finder; afterwards [getJointState] reports every
    joint as not enabled, with the position and velocity it had before.
    A following [run()] makes the joints enabled again (when the driver
    is connected and running) but does not bring back the motion
    command: the frame to send stays the zero-motion one. *)
Theorem stop_then_run (k : Kobuki) :
  finite_double (bias k) = true ->
  exists k',
    stop k = Some (k', [SerialWrite [170; 85; 5; 1; 0; 0; 0; 0; 4]], true) /\
    checkSum [170; 85; 5; 1; 0; 0; 0; 0; 4] = true /\
    (forall js,
       enabled (getJointState k' js) = false /\
       position (getJointState k' js) = position (getJointState k js) /\
       velocity (getJointState k' js) = velocity (getJointState k js) /\
       enabled (getJointState (fst (run k')) js) =
         is_connected k && is_running k) /\
    command_frame (fst (run k')) = [170; 85; 5; 1; 0; 0; 0; 0; 4].
Proof.
  intros Hb. exists (set_is_enabled false (set_radius_speed 0 0 k)).
  split.
  { unfold stop, setCommand.
    rewrite halt_radius, (command_speed_straight _ 0 0 eq_refl Hb).
    reflexivity. }
  split; [reflexivity|]. split; [|reflexivity].
  intros js. unfold getJointState, run.
  cbn [fst set_is_enabled set_radius_speed is_connected is_running
       is_enabled last_rad_left last_rad_right last_velocity_left
       last_velocity_right].
  destruct (String.eqb (name js) "wheel_left");
    cbn [enabled position velocity];
    rewrite andb_false_r, andb_true_r; repeat split.
Qed.

Lemma stop_then_run_witness :
  finite_double (bias wrapped_driver) = true /\
  exists k',
    stop wrapped_driver =
      Some (k', [SerialWrite [170; 85; 5; 1; 0; 0; 0; 0; 4]], true) /\
    checkSum [170; 85; 5; 1; 0; 0; 0; 0; 4] = true /\
    (forall js,
       enabled (getJointState k' js) = false /\
       position (getJointState k' js) =
         position (getJointState wrapped_driver js) /\
       velocity (getJointState k' js) =
         velocity (getJointState wrapped_driver js) /\
       enabled (getJointState (fst (run k')) js) =
         is_connected wrapped_driver && is_running wrapped_driver) /\
    command_frame (fst (run k')) = [170; 85; 5; 1; 0; 0; 0; 0; 4].
Proof.
  split; [reflexivity|].
  exact (stop_then_run wrapped_driver eq_refl).
Defined.

(** ** Initialisation *)

(** [init] throws a configuration error, and touches nothing, when the
    parameters do not validate. Otherwise it leaves a running driver
    (connected unless in simulation, in which case [is_connected] keeps
    its value) whose motion command is zero, whatever the command was
    before: the frame to send is AA 55 05 01 00 00 00 00 04, and
    [stop()] is defined and writes that frame. [init] does not enable
    the joints. *)
Theorem init_resets_command (validate : Parameters.t -> bool)
    (Kinematics : double -> double -> double -> double -> Pose2D)
    (parameters : Parameters.t) (k : Kobuki) :
  (validate parameters = false ->
   init validate Kinematics parameters k = ConfigurationError) /\
  (validate parameters = true ->
   exists k1,
     init validate Kinematics parameters k = Initialised k1 /\
     protocol_version k1 = Parameters.protocol_version parameters /\
     is_running k1 = true /\
     is_connected k1 =
       (if Parameters.simulation parameters then is_connected k else true) /\
     is_enabled k1 = is_enabled k /\
     command_frame k1 = [170; 85; 5; 1; 0; 0; 0; 0; 4] /\
     stop k1 =
       Some (set_is_enabled false k1,
             [SerialWrite [170; 85; 5; 1; 0; 0; 0; 0; 4]], true)).
Proof.
  unfold init. split; intros Hv; rewrite Hv; cbn [negb]; [reflexivity|].
  eexists. split; [reflexivity|]. repeat split.
Qed.

Lemma init_resets_command_witness :
  exists k1,
    init (fun _ => true) (fun _ _ _ _ => mkPose2D 0 0 0) sample_parameters
      fresh_driver = Initialised k1 /\
    protocol_version k1 = Parameters.protocol_version sample_parameters /\
    is_running k1 = true /\
    is_connected k1 =
      (if Parameters.simulation sample_parameters
       then is_connected fresh_driver else true) /\
    is_enabled k1 = is_enabled fresh_driver /\
    command_frame k1 = [170; 85; 5; 1; 0; 0; 0; 0; 4] /\
    stop k1 =
      Some (set_is_enabled false k1,
            [SerialWrite [170; 85; 5; 1; 0; 0; 0; 0; 4]], true).
Proof.
  exact (proj2
           (init_resets_command (fun _ => true)
              (fun _ _ _ _ => mkPose2D 0 0 0) sample_parameters fresh_driver)
           eq_refl).
Defined.

(** [init] zeroes the stored ticks and angles but not the statics
    [init_l] and [init_r] of [updateOdometry]. On a driver whose
    odometry has never run, the first update after [init] takes the
    current encoder values as its starting point and measures 0 ticks.
    On a driver whose odometry has run before, the first update after a
    new [init] measures the current encoder values against the zeroed
    ticks. *)
Theorem init_keeps_odometry_statics (validate : Parameters.t -> bool)
    (Kinematics : double -> double -> double -> double -> Pose2D)
    (parameters : Parameters.t) (k k1 : Kobuki) :
  init validate Kinematics parameters k = Initialised k1 ->
  let k2 := fst (updateOdometry k1) in
  last_rad_left k2 =
    (0 + tick_to_rad k
         * double_of_int
             (if init_l k
              then signed_wrap16 (left_encoder (kobuki_default k))
              else 0))%float /\
  last_rad_right k2 =
    (0 + tick_to_rad k
         * double_of_int
             (if init_r k
              then signed_wrap16 (right_encoder (kobuki_default k))
              else 0))%float /\
  last_tick_left k2 = left_encoder (kobuki_default k) /\
  last_tick_right k2 = right_encoder (kobuki_default k).
Proof.
  unfold init. destruct (validate parameters); cbn [negb]; [|discriminate].
  intros H. inversion H. subst k1. clear H.
  unfold updateOdometry.
  cbn [fst set_odometry last_rad_left last_rad_right last_tick_left
       last_tick_right kobuki_default init_l init_r tick_to_rad].
  rewrite !diff_ticks_signed_wrap16.
  destruct (init_l k), (init_r k);
    rewrite ?Z.sub_diag, ?Z.sub_0_r; repeat split.
Qed.

Lemma init_keeps_odometry_statics_witness :
  init (fun _ => true) (fun _ _ _ _ => mkPose2D 0 0 0) sample_parameters
    wrapped_driver = Initialised reinitialised_driver /\
  last_rad_left (fst (updateOdometry reinitialised_driver)) =
    (0 + tick_to_rad wrapped_driver * double_of_int (signed_wrap16 5))%float.
Proof.
  split; [reflexivity|].
  exact (proj1
           (init_keeps_odometry_statics (fun _ => true)
              (fun _ _ _ _ => mkPose2D 0 0 0) sample_parameters
              wrapped_driver reinitialised_driver eq_refl)).
Defined.

(** ** Which motion commands the packet finder would accept *)

Lemma command_radius_range (vx wz : double) (r : Z) :
  command_radius vx wz = Some r -> -32768 <= r <= 32767.
Proof.
  unfold command_radius.
  destruct (wz =? 0)%float; [intros H; inversion H; lia|].
  destruct ((vx =? 0)%float && (0 <? wz)%float);
    [intros H; inversion H; lia|].
  destruct ((vx =? 0)%float && (wz <? 0)%float);
    [intros H; inversion H; lia|].
  intros H. apply double_to_short_inv in H. lia.
Qed.

(** The frame that [sendCommand()] writes for the command stored by
    [setCommand(vx, wz)] passes the checksum test of the packet finder
    exactly when the stored radius lies in [0, 255]. So the frame of
    every straight command and of every in-place spin with [wz > 0]
    passes, and the frame of every in-place spin with [wz < 0], whose
    radius is -1, is rejected. *)
Theorem motion_command_accepted_iff (vx wz : double) (k k' : Kobuki) :
  setCommand vx wz k = Some k' ->
  (checkSum (command_frame k') = true <-> 0 <= radius k' <= 255) /\
  ((wz =? 0)%float = true -> checkSum (command_frame k') = true) /\
  ((vx =? 0)%float = true -> (0 <? wz)%float = true ->
   checkSum (command_frame k') = true) /\
  ((vx =? 0)%float = true -> (wz <? 0)%float = true ->
   checkSum (command_frame k') = false).
Proof.
  intros H.
  destruct (setCommand_inv _ _ _ _ H) as (r & s & Hr & _ & ->).
  pose proof (command_radius_range _ _ _ Hr) as Hrange.
  assert (Hiff : checkSum (command_frame (set_radius_speed r s k)) = true
                 <-> 0 <= r <= 255)
    by (apply command_frame_checkSum_range; exact Hrange).
  split; [exact Hiff|].
  unfold command_radius in Hr.
  split; [|split].
  - intros Hw. rewrite Hw in Hr. inversion Hr. subst r. apply Hiff. lia.
  - intros Hv Hp. rewrite (ltb_zero_neq wz (or_introl Hp)), Hv, Hp in Hr.
    inversion Hr. subst r. apply Hiff. lia.
  - intros Hv Hn.
    rewrite (ltb_zero_neq wz (or_intror Hn)), Hv, Hn in Hr.
    destruct (0 <? wz)%float eqn:Hp.
    + apply ltb_zero_exclusive in Hp. congruence.
    + inversion Hr. subst r.
      destruct (checkSum (command_frame (set_radius_speed (-1) s k)));
        [|reflexivity].
      assert (0 <= -1 <= 255) by (apply Hiff; reflexivity). lia.
Qed.

Lemma motion_command_accepted_iff_witness :
  (setCommand 0 0.5 sample_driver = Some (set_radius_speed 1 74 sample_driver)
   /\ checkSum (command_frame (set_radius_speed 1 74 sample_driver)) = true)
  /\
  (setCommand 0 (-0.5) sample_driver =
     Some (set_radius_speed (-1) 74 sample_driver)
   /\ checkSum (command_frame (set_radius_speed (-1) 74 sample_driver)) =
        false).
Proof.
  split.
  - split; [reflexivity|].
    exact (proj1 (proj2 (proj2
             (motion_command_accepted_iff 0 0.5 sample_driver
                (set_radius_speed 1 74 sample_driver) eq_refl)))
             eq_refl eq_refl).
  - split; [reflexivity|].
    exact (proj2 (proj2 (proj2
             (motion_command_accepted_iff 0 (-0.5) sample_driver
                (set_radius_speed (-1) 74 sample_driver) eq_refl)))
             eq_refl eq_refl).
Defined.
